(** * recipe-chatbot: the backend helper [backend/utils.py]

    A shallow embedding of the module's top-level statements and of
    [get_agent_response], followed by the properties of the conversation
    completer proved about that embedding.

    Modelling conventions.
    - A Python [str] is a sequence of Unicode code points. It is kept as the
      Rocq [string] of its UTF-8 encoding, one character per byte, so that
      equal texts are equal strings and the names the module spells out
      ("role", "system", ...) are the literals of the source. Where the code
      looks inside a text, in [.strip()] and in indexing, the string is
      decoded to its code points.
    - A message ([Dict[str, str]]) is a finite map from strings to strings.
    - List objects live in a store and are named by their address, so that
      [current_messages = messages] is an alias and [a + b] is a new object.
      The function never writes to a dict, so dicts are kept by value inside
      the lists.
    - Python exceptions are an explicit error result.
    - [litellm.completion] is an oracle: a function of the model name and of
      the contents of the message list that either raises or returns a value;
      every request is appended to a log. *)

From Stdlib Require Import Ascii String NArith.
From stdpp Require Import gmap strings list fin_maps.

Set Default Proof Using "Type".
Local Set Warnings "-register-all".

(** ** Python data *)

Abbreviation message := (gmap string string).

(** The result of the completion call is plain data: [None], a string, a list
    or a dict with string keys. *)
Inductive pyval : Type :=
| PNone
| PStr (s : string)
| PList (l : list pyval)
| PDict (d : gmap string pyval).

(** Subscript keys, as they appear in a [KeyError]. *)
Inductive pykey : Type :=
| KStr (s : string)
| KInt (n : nat).

(** Exceptions: the classes the interpreter raises for the operations used in
    this module, and any other exception by class name and message. *)
Inductive exn : Type :=
| KeyError (key : pykey)
| IndexError (msg : string)
| TypeError
| AttributeError
| OtherError (cls msg : string).

Inductive outcome (A : Type) : Type :=
| Return (a : A)
| Raise (e : exn).
Arguments Return {A} a.
Arguments Raise {A} e.

Definition is_raise {A} (o : outcome A) : bool :=
  match o with Raise _ => true | Return _ => false end.

#[global] Instance outcome_ret : MRet outcome := λ A a, Return a.

#[global] Instance outcome_bind : MBind outcome := λ A B k o,
  match o with
  | Return a => k a
  | Raise e => Raise e
  end.

(** ** Text *)

(** The code points a [str] can hold: U+0000 to U+10FFFF. *)
Definition is_code_point (c : N) : Prop := (c < 1114112)%N.

(** The code points of a literal written with ASCII characters. *)
Definition text (s : string) : list N :=
  N_of_ascii <$> list_ascii_of_string s.

Definition byte_of (n : N) : ascii := ascii_of_N n.

(** UTF-8: one to four bytes for a code point. *)
Definition utf8_encode_char (c : N) : string :=
  (if c <? 128 then String (byte_of c) ""
   else if c <? 2048 then
     String (byte_of (192 + c / 64)) (String (byte_of (128 + c mod 64)) "")
   else if c <? 65536 then
     String (byte_of (224 + c / 4096))
       (String (byte_of (128 + (c / 64) mod 64))
          (String (byte_of (128 + c mod 64)) ""))
   else
     String (byte_of (240 + c / 262144))
       (String (byte_of (128 + (c / 4096) mod 64))
          (String (byte_of (128 + (c / 64) mod 64))
             (String (byte_of (128 + c mod 64)) ""))))%N.

Fixpoint utf8_encode (t : list N) : string :=
  match t with
  | [] => ""
  | c :: t' => utf8_encode_char c +:+ utf8_encode t'
  end.

(** The code points of an encoded text. Bytes that are the encoding of no
    text, which no [str] gives, are kept one by one as code points. *)
Fixpoint utf8_decode (s : string) : list N :=
  match s with
  | EmptyString => []
  | String b0 s1 =>
      let n0 := N_of_ascii b0 in
      if (n0 <? 192)%N then n0 :: utf8_decode s1
      else if (n0 <? 224)%N then
        match s1 with
        | String b1 s2 =>
            ((n0 - 192) * 64 + (N_of_ascii b1 - 128))%N :: utf8_decode s2
        | _ => n0 :: utf8_decode s1
        end
      else if (n0 <? 240)%N then
        match s1 with
        | String b1 (String b2 s3) =>
            ((n0 - 224) * 4096 + (N_of_ascii b1 - 128) * 64
             + (N_of_ascii b2 - 128))%N :: utf8_decode s3
        | _ => n0 :: utf8_decode s1
        end
      else
        match s1 with
        | String b1 (String b2 (String b3 s4)) =>
            ((n0 - 240) * 262144 + (N_of_ascii b1 - 128) * 4096
             + (N_of_ascii b2 - 128) * 64 + (N_of_ascii b3 - 128))%N
            :: utf8_decode s4
        | _ => n0 :: utf8_decode s1
        end
  end.

(** ** [str.strip()] *)

(** [str.isspace] on one code point, as the interpreter's table has it: TAB
    to CR, FS to US and the space; NEL and the no-break space; the Ogham
    space mark; EN QUAD to HAIR SPACE; the line and paragraph separators;
    the narrow no-break, medium mathematical and ideographic spaces. *)
Definition isspace (c : N) : bool :=
  (((9 <=? c) && (c <=? 13)) || ((28 <=? c) && (c <=? 32))
   || (c =? 133) || (c =? 160) || (c =? 5760)
   || ((8192 <=? c) && (c <=? 8202))
   || (c =? 8232) || (c =? 8233) || (c =? 8239) || (c =? 8287)
   || (c =? 12288))%N.

Fixpoint lstrip (t : list N) : list N :=
  match t with
  | [] => []
  | c :: t' => if isspace c then lstrip t' else t
  end.

Fixpoint rstrip (t : list N) : list N :=
  match t with
  | [] => []
  | c :: t' =>
      match rstrip t' with
      | [] => if isspace c then [] else [c]
      | r => c :: r
      end
  end.

Definition strip_text (t : list N) : list N := rstrip (lstrip t).

(** [s.strip()] on a text kept as its encoding. *)
Definition strip (s : string) : string :=
  utf8_encode (strip_text (utf8_decode s)).

(** ** Operations on the completion result *)

(** [v[k]] for a string key [k]. *)
Definition py_getitem (v : pyval) (k : string) : outcome pyval :=
  match v with
  | PDict d =>
      match d !! k with
      | Some x => Return x
      | None => Raise (KeyError (KStr k))
      end
  | PNone | PStr _ | PList _ => Raise TypeError
  end.

(** [v[i]] for an integer index [i >= 0]. *)
Definition py_getitem_index (v : pyval) (i : nat) : outcome pyval :=
  match v with
  | PList l =>
      match l !! i with
      | Some x => Return x
      | None => Raise (IndexError "list index out of range")
      end
  | PStr s =>
      match utf8_decode s !! i with
      | Some c => Return (PStr (utf8_encode [c]))
      | None => Raise (IndexError "string index out of range")
      end
  | PDict _ => Raise (KeyError (KInt i))
  | PNone => Raise TypeError
  end.

(** [v.strip()]. *)
Definition py_strip (v : pyval) : outcome string :=
  match v with
  | PStr s => Return (strip s)
  | PNone | PList _ | PDict _ => Raise AttributeError
  end.

(** ** The process state and the effect monad *)

Definition loc := nat.

Record world : Type := World {
  environ : gmap string string;
  heap : list (list message);
  calls : list (string * list message)
}.

Definition set_environ (f : gmap string string → gmap string string)
    (w : world) : world :=
  World (f (environ w)) (heap w) (calls w).

Definition set_heap
    (f : list (list message) → list (list message))
    (w : world) : world :=
  World (environ w) (f (heap w)) (calls w).

Definition set_calls
    (f : list (string * list message) →
         list (string * list message))
    (w : world) : world :=
  World (environ w) (heap w) (f (calls w)).

Definition M (A : Type) : Type := world → outcome A * world.

#[global] Instance M_ret : MRet M := λ A a w, (Return a, w).

#[global] Instance M_bind : MBind M := λ A B k c w,
  match c w with
  | (Return a, w') => k a w'
  | (Raise e, w') => (Raise e, w')
  end.

Definition raise {A} (e : exn) : M A := λ w, (Raise e, w).

Definition lift {A} (o : outcome A) : M A := λ w, (o, w).

(** *** List objects *)

(** A list display or the result of [+]: a new object at a fresh address. *)
Definition list_new (l : list message) : M loc :=
  λ w, (Return (length (heap w)), set_heap (λ σ, σ ++ [l]) w).

(** The contents of a live list object. *)
Definition list_read (ℓ : loc) : M (list message) :=
  λ w, (Return (default [] (heap w !! ℓ)), w).

(** Truth value of a list: false exactly when it is empty. *)
Definition list_bool (ℓ : loc) : M bool :=
  l ← list_read ℓ; mret (bool_decide (l ≠ [])).

(** [ℓ[i]] *)
Definition list_getitem (ℓ : loc) (i : nat) : M message :=
  l ← list_read ℓ;
  match l !! i with
  | Some m => mret m
  | None => raise (IndexError "list index out of range")
  end.

(** [ℓ1 + ℓ2] *)
Definition list_add (ℓ1 ℓ2 : loc) : M loc :=
  l1 ← list_read ℓ1; l2 ← list_read ℓ2; list_new (l1 ++ l2).

(** [d[k]] on a message. *)
Definition dict_getitem (d : message) (k : string) : M string :=
  match d !! k with
  | Some v => mret v
  | None => raise (KeyError (KStr k))
  end.

(** *** The environment *)

(** [load_dotenv(override=False)]: the variables of the [.env] file are added
    to [os.environ]; a variable that is already set keeps its value. The
    parsed file is the argument (empty when there is no file). *)
Definition load_dotenv (dotenv : gmap string string) : M unit :=
  λ w, (Return (), set_environ (λ e, e ∪ dotenv) w).

(** [os.environ.get(k, dflt)] *)
Definition os_environ_get (k dflt : string) : M string :=
  λ w, (Return (default dflt (environ w !! k)), w).

(** ** Module level *)

Definition SYSTEM_PROMPT : string :=
    "As an expert chef who creates easy-to-use recipes for busy families" +:+
    "you combine culinary expertise with a deep understanding of family needs," +:+
    "creativity, attention to detail, and excellent communication skills." +:+
    "You can take complex cooking techniques and simplify them into clear," +:+
    "step-by-step instructions that are easy to follow." +:+
    "Recipes should be clear, concise, and easy to understand, with minimal jargon" +:+
    "and technical cooking terms. They might also provide helpful tips, variations," +:+
    "or substitutions for common ingredients." +:+
    "Always provide ingredient lists with precise measurements using standard units." +:+
    "Many families have specific dietary requirements, such as vegetarian, gluten-free, " +:+
    "or dairy-free. As an expert chef you are aware of these limitations and" +:+
    "create recipes that accommodate various dietary needs." +:+
    "Present only one recipe at a time. If the user doesn't specify what ingredients " +:+
    "they have available, assume only basic ingredients are available." +:+
    "Be descriptive in the steps of the recipe, so it is easy to follow." +:+
    "Have variety in your recipes, don't just recommend the same thing over and over." +:+
    "You are to create recipes that use a maximum of 5 ingredients and" +:+
    "take 30 minutes or less to prepare." +:+
    "Structure all your recipe responses clearly using Markdown for formatting." +:+
    "Begin every recipe response with the recipe name as a Level 2 Heading (e.g., ## Amazing Blueberry Muffins)." +:+
    "Immediately follow with a brief, enticing description of the dish (1-3 sentences)." +:+
    "Next, include a section titled ### Ingredients. List all ingredients using a Markdown unordered list (bullet points)." +:+
    "Following ingredients, include a section titled ### Instructions. Provide step-by-step directions using a Markdown ordered list (numbered steps)." +:+
    "Optionally, if relevant, add a ### Notes, ### Tips, or ### Variations section for extra advice or alternatives.".

(** The statements executed when the module is imported; the value is the
    module global [MODEL_NAME]. *)
Definition module_init (dotenv : gmap string string) : M string :=
  _ ← load_dotenv dotenv;
  os_environ_get "MODEL_NAME" "gpt-4o-mini".

(** ** The agent wrapper *)

Section agent.
(** The module global [MODEL_NAME], and the provider behind
    [litellm.completion]. *)
Variable MODEL_NAME : string.
Variable provider : string → list message → outcome pyval.

(** [litellm.completion(model=model, messages=ℓ)] *)
Definition litellm_completion (model : string) (ℓ : loc) : M pyval :=
  l ← list_read ℓ;
  ((λ w, (provider model l, set_calls (λ cs, cs ++ [(model, l)]) w))
     : M pyval).

Definition get_agent_response (messages : loc) : M loc :=
  nonempty ← list_bool messages;
  missing ← (if negb nonempty then mret true
             else
               first ← list_getitem messages 0;
               role ← dict_getitem first "role";
               mret (bool_decide (role ≠ "system")));
  current_messages ←
    (if missing : bool then
       prompt ← list_new [ {[ "role" := "system"; "content" := SYSTEM_PROMPT ]} ];
       list_add prompt messages
     else mret messages);
  completion ← litellm_completion MODEL_NAME current_messages;
  assistant_reply_content ←
    lift (choices ← py_getitem completion "choices";
          choice ← py_getitem_index choices 0;
          msg ← py_getitem choice "message";
          content ← py_getitem msg "content";
          py_strip content);
  reply ← list_new [ {[ "role" := "assistant"; "content" := assistant_reply_content ]} ];
  updated_messages ← list_add current_messages reply;
  mret updated_messages.
End agent.

(** ** Derived notions used in the statements *)

Definition system_message : message :=
  {[ "role" := "system"; "content" := SYSTEM_PROMPT ]}.

Definition assistant_message (txt : string) : message :=
  {[ "role" := "assistant"; "content" := txt ]}.

(** [completion["choices"][0]["message"]["content"]] *)
Definition reply_content (completion : pyval) : outcome pyval :=
  choices ← py_getitem completion "choices";
  choice ← py_getitem_index choices 0;
  msg ← py_getitem choice "message";
  py_getitem msg "content".

(** [completion["choices"][0]["message"]["content"].strip()] *)
Definition reply_text (completion : pyval) : outcome string :=
  choices ← py_getitem completion "choices";
  choice ← py_getitem_index choices 0;
  msg ← py_getitem choice "message";
  content ← py_getitem msg "content";
  py_strip content.

(** The condition [not messages or messages[0]["role"] != "system"] on the
    contents of the list. *)
Definition prompt_missing (h : list message) : outcome bool :=
  match h with
  | [] => Return true
  | first :: _ =>
      match first !! "role" with
      | Some role => Return (bool_decide (role ≠ "system"))
      | None => Raise (KeyError (KStr "role"))
      end
  end.

(** The history sent to the provider, given the value of that condition. *)
Definition effective (missing : bool) (h : list message) : list message :=
  if missing then system_message :: h else h.

(** The conversation a result denotes: the contents of the returned list
    object, and nothing when an exception was raised. *)
Definition conversation_of (r : outcome loc * world) : option (list message) :=
  match r.1 with
  | Return ℓ => heap r.2 !! ℓ
  | Raise _ => None
  end.

(** The result as the caller sees it: the returned conversation or the
    exception. *)
Definition observed (r : outcome loc * world) : outcome (list message) :=
  match r.1 with
  | Return ℓ => Return (default [] (heap r.2 !! ℓ))
  | Raise e => Raise e
  end.

(** The requests sent to the provider during a run started in [w]. *)
Definition requests (w : world) (r : outcome loc * world)
    : list (string * list message) :=
  drop (length (calls w)) (calls r.2).

(** The whitespace that [str.strip()] removes: the 29 code points for which
    [str.isspace] holds. *)
Definition unicode_whitespace : list N :=
  [9; 10; 11; 12; 13; 28; 29; 30; 31; 32; 133; 160; 5760;
   8192; 8193; 8194; 8195; 8196; 8197; 8198; 8199; 8200; 8201; 8202;
   8232; 8233; 8239; 8287; 12288]%N.

(** The reply text with leading and trailing whitespace removed: [t] is what
    is left of [s] once a run of whitespace is taken off each end, and [t]
    itself neither starts nor ends with whitespace. *)
Definition is_trim_of (s t : list N) : Prop :=
  (∃ pre post, s = pre ++ t ++ post
               ∧ Forall (.∈ unicode_whitespace) pre
               ∧ Forall (.∈ unicode_whitespace) post)
  ∧ (∀ c t', t = c :: t' → c ∉ unicode_whitespace)
  ∧ (∀ c t', t = t' ++ [c] → c ∉ unicode_whitespace).

(** The exceptions raised by the extraction expression itself. *)
Definition extraction_error (e : exn) : bool :=
  match e with
  | KeyError _ | IndexError _ | TypeError | AttributeError => true
  | OtherError _ _ => false
  end.

(** ** The call in terms of the contents of its argument *)

Section spec.
Variable MODEL_NAME : string.
Variable provider : string → list message → outcome pyval.

(** What one call does to the store and the request log, in terms of the
    contents [h] of the argument. *)
Definition run_on (h : list message) (w : world) : outcome loc * world :=
  match prompt_missing h with
  | Raise e => (Raise e, w)
  | Return b =>
      let cur := effective b h in
      let σ := if b then heap w ++ [[system_message]; cur] else heap w in
      let cs := calls w ++ [(MODEL_NAME, cur)] in
      match provider MODEL_NAME cur ≫= reply_text with
      | Raise e => (Raise e, World (environ w) σ cs)
      | Return txt =>
          (Return (S (length σ)),
           World (environ w)
             (σ ++ [[assistant_message txt]; cur ++ [assistant_message txt]])
             cs)
      end
  end.

(** The result of a call on a list with contents [h], as the caller sees
    it. *)
Definition respond (h : list message) : outcome (list message) :=
  b ← prompt_missing h;
  reply ← provider MODEL_NAME (effective b h);
  txt ← reply_text reply;
  mret (effective b h ++ [assistant_message txt]).
End spec.

(** ** Readings that the code does not satisfy *)

(** C4 as stated: what the caller sees when the provider's value holds no
    extractable reply text differs from what the caller sees when the
    provider fails. *)
Definition malformed_is_distinct : Prop :=
  ∀ (MODEL_NAME : string) (c1 c2 : string → list message → outcome pyval)
    (ℓ : loc) (h : list message) (w : world),
    heap w !! ℓ = Some h →
    (∀ model l, ∃ reply,
        c1 model l = Return reply ∧ is_raise (reply_text reply) = true) →
    (∀ model l, is_raise (c2 model l) = true) →
    observed (get_agent_response MODEL_NAME c1 ℓ w)
    ≠ observed (get_agent_response MODEL_NAME c2 ℓ w).

(** C5 as stated: there is a configuration value whose absence from the
    environment makes the import of the module raise. *)
Definition startup_checks_configuration : Prop :=
  ∃ key : string, ∀ (dotenv : gmap string string) (w : world),
    (environ w ∪ dotenv) !! key = None →
    is_raise (module_init dotenv w).1 = true.

(** ** Test data *)

Definition w0 : world := World ∅ [] [].

Definition user_message (txt : string) : message :=
  {[ "role" := "user"; "content" := txt ]}.

Definition custom_system : message :=
  {[ "role" := "system"; "content" := "custom prompt" ]}.

Definition response_with (content : pyval) : pyval :=
  PDict {[ "choices" :=
             PList [PDict {[ "message" := PDict {[ "content" := content ]} ]}] ]}.

(** A provider that always answers with the same text. *)
Definition echo : string → list message → outcome pyval :=
  λ _ _, Return (response_with (PStr "  Hello there  ")).

(** A provider whose answer has an empty list of choices. *)
Definition no_choices : string → list message → outcome pyval :=
  λ _ _, Return (PDict {[ "choices" := PList [] ]}).

(** A provider that always raises [e]. *)
Definition provider_down (e : exn) : string → list message → outcome pyval :=
  λ _ _, Raise e.

Definition w_empty : world := World ∅ [[]] [].

Definition w_user : world :=
  World ∅ [[user_message "I have eggs and flour"]] [].

Definition w_custom : world :=
  World ∅ [[custom_system; user_message "hi"]] [].

Definition w_no_role : world :=
  World ∅ [[ {[ "content" := "hi" ]} ]] [].

(** A state with an older list, a request already logged and a variable
    set. *)
Definition w_later : world :=
  World {[ "MODEL_NAME" := "gpt-4o" ]}
        [[]; [user_message "I have eggs and flour"]]
        [("gpt-4o", [])].

(** A provider whose answer carries no text: [content] is [None]. *)
Definition silent : string → list message → outcome pyval :=
  λ _ _, Return (response_with PNone).

(** A text of whitespace only: a space, a tab, a line feed, a no-break
    space and an ideographic space. *)
Definition blank_text : list N := [32; 9; 10; 160; 12288]%N.

(** A provider whose answer is that text. *)
Definition blank : string → list message → outcome pyval :=
  λ _ _, Return (response_with (PStr (utf8_encode blank_text))).

(** A text with whitespace beyond U+00FF at both ends. *)
Definition padded_text : list N :=
  ([12288; 9] ++ text "Hello there" ++ [8195; 10; 133])%N.

(** A provider whose answer is that text. *)
Definition echo_padded : string → list message → outcome pyval :=
  λ _ _, Return (response_with (PStr (utf8_encode padded_text))).

(** A provider whose answer has two choices and keys the function does not
    read. *)
Definition first_message : gmap string pyval :=
  {[ "role" := PStr "assistant"; "content" := PStr "first " ]}.

Definition first_choice : gmap string pyval :=
  {[ "finish_reason" := PStr "stop"; "message" := PDict first_message ]}.

Definition second_choice : pyval :=
  PDict {[ "message" := PDict {[ "content" := PStr "second" ]} ]}.

Definition two_choices_reply : gmap string pyval :=
  {[ "id" := PStr "cmpl-1";
     "choices" := PList [PDict first_choice; second_choice] ]}.

Definition two_choices : string → list message → outcome pyval :=
  λ _ _, Return (PDict two_choices_reply).

(** An environment that names a model, and a [.env] file that names another
    one and a key. *)
Definition w_configured : world := World {[ "MODEL_NAME" := "gpt-4o" ]} [] [].

Definition dotenv_file : gmap string string :=
  {[ "MODEL_NAME" := "gpt-3.5-turbo"; "OPENAI_API_KEY" := "sk-test" ]}.

(** The same environment with a list in the store. *)
Definition w_configured_user : world :=
  World {[ "MODEL_NAME" := "gpt-4o" ]}
        [[user_message "I have eggs and flour"]] [].

(** A returned conversation to which the caller has added a message. *)
Definition w_second_turn : world :=
  World ∅
        [[system_message; user_message "I have eggs and flour";
          assistant_message "Hello there"; user_message "thanks"]]
        [].

(** * Lemmas *)

(** ** One step of each primitive *)

Lemma bind_run {A B} (c : M A) (k : A → M B) w :
  (c ≫= k) w =
  match c w with
  | (Return a, w') => k a w'
  | (Raise e, w') => (Raise e, w')
  end.
Proof. reflexivity. Qed.

Lemma ret_bind_run {A B} (a : A) (k : A → M B) w : (mret a ≫= k) w = k a w.
Proof. reflexivity. Qed.

Lemma list_read_run ℓ l w :
  heap w !! ℓ = Some l → list_read ℓ w = (Return l, w).
Proof. intros H. unfold list_read. by rewrite H. Qed.

Lemma list_bool_run ℓ l w :
  heap w !! ℓ = Some l → list_bool ℓ w = (Return (bool_decide (l ≠ [])), w).
Proof.
  intros H. unfold list_bool. by rewrite bind_run, (list_read_run _ _ _ H).
Qed.

Lemma list_getitem_run ℓ l i w :
  heap w !! ℓ = Some l →
  list_getitem ℓ i w =
  match l !! i with
  | Some m => (Return m, w)
  | None => (Raise (IndexError "list index out of range"), w)
  end.
Proof.
  intros H. unfold list_getitem. rewrite bind_run, (list_read_run _ _ _ H).
  by destruct (l !! i).
Qed.

Lemma list_add_run ℓ1 ℓ2 l1 l2 w :
  heap w !! ℓ1 = Some l1 → heap w !! ℓ2 = Some l2 →
  list_add ℓ1 ℓ2 w =
  (Return (length (heap w)), set_heap (λ σ, σ ++ [l1 ++ l2]) w).
Proof.
  intros H1 H2. unfold list_add.
  rewrite bind_run, (list_read_run _ _ _ H1).
  by rewrite bind_run, (list_read_run _ _ _ H2).
Qed.

Lemma dict_getitem_run d k w :
  dict_getitem d k w =
  match d !! k with
  | Some v => (Return v, w)
  | None => (Raise (KeyError (KStr k)), w)
  end.
Proof. unfold dict_getitem. by destruct (d !! k). Qed.

Lemma heap_new_last (σ : list (list message)) l :
  (σ ++ [l]) !! length σ = Some l.
Proof. by rewrite lookup_app_r, Nat.sub_diag. Qed.

Lemma heap_new_old (σ : list (list message)) l ℓ h :
  σ !! ℓ = Some h → (σ ++ [l]) !! ℓ = Some h.
Proof. intros H. by apply lookup_app_l_Some. Qed.

Lemma heap_new_second (σ : list (list message)) l1 l2 :
  (σ ++ [l1; l2]) !! S (length σ) = Some l2.
Proof.
  rewrite lookup_app_r by lia.
  by replace (S (length σ) - length σ) with 1 by lia.
Qed.

(** ** The run of [get_agent_response] on a live list *)

Section run.
Variable MODEL_NAME : string.
Variable provider : string → list message → outcome pyval.

Lemma litellm_completion_run model ℓ l w :
  heap w !! ℓ = Some l →
  litellm_completion provider model ℓ w =
  (provider model l, set_calls (λ cs, cs ++ [(model, l)]) w).
Proof.
  intros H. unfold litellm_completion.
  by rewrite bind_run, (list_read_run _ _ _ H).
Qed.

(** From the completion call on, with [current_messages] live. *)
Lemma complete_run cur l w :
  heap w !! cur = Some l →
  (completion ← litellm_completion provider MODEL_NAME cur;
   assistant_reply_content ←
     lift (choices ← py_getitem completion "choices";
           choice ← py_getitem_index choices 0;
           msg ← py_getitem choice "message";
           content ← py_getitem msg "content";
           py_strip content);
   reply ← list_new [ {[ "role" := "assistant"; "content" := assistant_reply_content ]} ];
   updated_messages ← list_add cur reply;
   mret updated_messages) w =
  match provider MODEL_NAME l ≫= reply_text with
  | Raise e => (Raise e, World (environ w) (heap w) (calls w ++ [(MODEL_NAME, l)]))
  | Return txt =>
      (Return (S (length (heap w))),
       World (environ w)
         (heap w ++ [[assistant_message txt]; l ++ [assistant_message txt]])
         (calls w ++ [(MODEL_NAME, l)]))
  end.
Proof.
  intros Hcur. rewrite bind_run, (litellm_completion_run _ _ _ _ Hcur).
  destruct (provider MODEL_NAME l) as [r|e]; [|done].
  rewrite bind_run. unfold lift.
  change (choices ← py_getitem r "choices"; _) with (reply_text r).
  change (Return r ≫= reply_text) with (reply_text r).
  destruct (reply_text r) as [txt|e]; [|done].
  rewrite bind_run. unfold list_new at 1. cbv beta iota.
  rewrite bind_run.
  rewrite (list_add_run _ _ l [assistant_message txt]);
    [| by apply heap_new_old | by apply heap_new_last].
  destruct w as [env σ cs]. unfold set_heap, set_calls, mret, M_ret. simpl.
  by rewrite length_app, Nat.add_1_r, <-app_assoc.
Qed.

(** The branch that puts the system prompt in front. *)
Lemma prepend_run ℓ h w :
  heap w !! ℓ = Some h →
  (prompt ← list_new [ {[ "role" := "system"; "content" := SYSTEM_PROMPT ]} ];
   list_add prompt ℓ) w =
  (Return (S (length (heap w))),
   set_heap (λ σ, σ ++ [[system_message]; system_message :: h]) w).
Proof.
  intros Hℓ. rewrite bind_run. unfold list_new at 1. cbv beta iota.
  rewrite (list_add_run _ _ [system_message] h);
    [| by apply heap_new_last | by apply heap_new_old].
  destruct w as [env σ cs]. unfold set_heap. simpl.
  by rewrite length_app, Nat.add_1_r, <-app_assoc.
Qed.

Lemma get_agent_response_run ℓ h w :
  heap w !! ℓ = Some h →
  get_agent_response MODEL_NAME provider ℓ w
  = run_on MODEL_NAME provider h w.
Proof.
  intros Hℓ. unfold get_agent_response, run_on.
  rewrite bind_run, (list_bool_run _ _ _ Hℓ). cbv beta iota.
  assert (Hpre : ∀ k : loc → M loc,
    ((prompt ← list_new [ {[ "role" := "system"; "content" := SYSTEM_PROMPT ]} ];
      list_add prompt ℓ) ≫= k) w =
    k (S (length (heap w)))
      (set_heap (λ σ, σ ++ [[system_message]; system_message :: h]) w)).
  { intros k. by rewrite bind_run, (prepend_run _ _ _ Hℓ). }
  assert (Hcur : heap (set_heap
            (λ σ, σ ++ [[system_message]; system_message :: h]) w)
            !! S (length (heap w)) = Some (system_message :: h))
    by apply heap_new_second.
  destruct h as [|first t].
  - rewrite bool_decide_eq_false_2 by (intros H; by apply H).
    change (negb false) with true. cbv iota.
    rewrite bind_run. unfold mret at 1, M_ret at 1. cbv beta iota.
    rewrite Hpre, (complete_run _ _ _ Hcur). simpl.
    by destruct (provider MODEL_NAME _ ≫= reply_text).
  - rewrite bool_decide_eq_true_2 by done.
    change (negb true) with false. cbv iota.
    rewrite !bind_run, (list_getitem_run _ _ _ _ Hℓ). simpl.
    rewrite bind_run, dict_getitem_run.
    destruct (first !! "role") as [role|]; [|done].
    unfold mret at 1, M_ret at 1. cbv beta iota.
    destruct (bool_decide (role ≠ "system")).
    + rewrite Hpre, (complete_run _ _ _ Hcur). simpl.
      by destruct (provider MODEL_NAME _ ≫= reply_text).
    + rewrite ret_bind_run, (complete_run _ _ _ Hℓ).
      by destruct (provider MODEL_NAME _ ≫= reply_text).
Qed.
End run.

(** ** The call as a function of the contents of its argument *)

Section respond.
Variable MODEL_NAME : string.
Variable provider : string → list message → outcome pyval.

Lemma run_on_observed h w :
  observed (run_on MODEL_NAME provider h w)
  = respond MODEL_NAME provider h.
Proof.
  unfold run_on, respond, observed.
  destruct (prompt_missing h) as [b|e]; [|done]. simpl.
  destruct (provider MODEL_NAME (effective b h)) as [reply|e]; [|done].
  simpl. destruct (reply_text reply) as [txt|e]; [|done]. simpl.
  destruct b; simpl.
  - rewrite length_app. simpl.
    replace (S (length (heap w) + 2)) with (length (heap w) + 3) by lia.
    rewrite <-app_assoc. simpl.
    by rewrite (lookup_app_r (heap w)) by lia;
       replace (length (heap w) + 3 - length (heap w)) with 3 by lia.
  - by rewrite heap_new_second.
Qed.

Lemma run_on_conversation h w :
  conversation_of (run_on MODEL_NAME provider h w) =
  match respond MODEL_NAME provider h with
  | Return conv => Some conv
  | Raise _ => None
  end.
Proof.
  unfold run_on, respond, conversation_of.
  destruct (prompt_missing h) as [b|e]; [|done]. simpl.
  destruct (provider MODEL_NAME (effective b h)) as [reply|e]; [|done].
  simpl. destruct (reply_text reply) as [txt|e]; [|done]. simpl.
  destruct b; simpl.
  - rewrite length_app. simpl.
    replace (S (length (heap w) + 2)) with (length (heap w) + 3) by lia.
    rewrite <-app_assoc. simpl.
    by rewrite (lookup_app_r (heap w)) by lia;
       replace (length (heap w) + 3 - length (heap w)) with 3 by lia.
  - by rewrite heap_new_second.
Qed.

Lemma run_on_requests h w :
  requests w (run_on MODEL_NAME provider h w) =
  match prompt_missing h with
  | Return b => [(MODEL_NAME, effective b h)]
  | Raise _ => []
  end.
Proof.
  unfold run_on, requests.
  destruct (prompt_missing h) as [b|e]; [|by rewrite drop_all].
  simpl. by destruct (_ ≫= reply_text); simpl; rewrite drop_app_length.
Qed.

Lemma run_on_heap h w :
  heap w `prefix_of` heap (run_on MODEL_NAME provider h w).2.
Proof.
  unfold run_on. destruct (prompt_missing h) as [b|e]; [|done]. simpl.
  destruct (_ ≫= reply_text); destruct b; simpl;
    rewrite <-?app_assoc; first [done | by eexists].
Qed.

Lemma run_on_fresh h w ℓ' :
  (run_on MODEL_NAME provider h w).1 = Return ℓ' → length (heap w) < ℓ'.
Proof.
  unfold run_on. destruct (prompt_missing h) as [b|e]; [|done]. simpl.
  destruct (_ ≫= reply_text); [|done]. simpl. intros [= <-].
  destruct b; [rewrite length_app|]; lia.
Qed.

Lemma run_on_environ h w :
  environ (run_on MODEL_NAME provider h w).2 = environ w.
Proof.
  unfold run_on. destruct (prompt_missing h) as [b|e]; [|done]. simpl.
  by destruct (_ ≫= reply_text).
Qed.
End respond.

(** ** Trimming *)

Lemma isspace_whitespace c : isspace c = true ↔ c ∈ unicode_whitespace.
Proof.
  split.
  - unfold isspace. rewrite !orb_true_iff, !andb_true_iff, !N.leb_le, !N.eqb_eq.
    intros H.
    assert (Hc : (c = 9 ∨ c = 10 ∨ c = 11 ∨ c = 12 ∨ c = 13 ∨ c = 28 ∨ c = 29
      ∨ c = 30 ∨ c = 31 ∨ c = 32 ∨ c = 133 ∨ c = 160 ∨ c = 5760 ∨ c = 8192
      ∨ c = 8193 ∨ c = 8194 ∨ c = 8195 ∨ c = 8196 ∨ c = 8197 ∨ c = 8198
      ∨ c = 8199 ∨ c = 8200 ∨ c = 8201 ∨ c = 8202 ∨ c = 8232 ∨ c = 8233
      ∨ c = 8239 ∨ c = 8287 ∨ c = 12288)%N) by lia.
    clear H. apply list_elem_of_In. simpl. intuition.
  - intros H%list_elem_of_In. simpl in H.
    repeat (destruct H as [<-|H]; [reflexivity|]). done.
Qed.

Ltac div_lia := zify; Z.to_euclidean_division_equations; lia.

Lemma byte_of_N n : (n < 256)%N → N_of_ascii (byte_of n) = n.
Proof. apply N_ascii_embedding. Qed.

Lemma utf8_decode_char c s :
  (c < 1114112)%N →
  utf8_decode (utf8_encode_char c +:+ s) = c :: utf8_decode s.
Proof.
  intros Hc. unfold utf8_encode_char.
  destruct (N.ltb_spec c 128); [|destruct (N.ltb_spec c 2048);
    [|destruct (N.ltb_spec c 65536)]].
  - change (String ?a "" +:+ s) with (String a s). cbn [utf8_decode].
    rewrite byte_of_N by div_lia.
    destruct (N.ltb_spec c 192); [done|div_lia].
  - change (String ?a (String ?b "") +:+ s) with (String a (String b s)).
    cbn [utf8_decode]. rewrite !byte_of_N by div_lia.
    destruct (N.ltb_spec (192 + c / 64) 192); [div_lia|].
    destruct (N.ltb_spec (192 + c / 64) 224); [|div_lia].
    f_equal. div_lia.
  - change (String ?a (String ?b (String ?d "")) +:+ s)
      with (String a (String b (String d s))).
    cbn [utf8_decode]. rewrite !byte_of_N by div_lia.
    destruct (N.ltb_spec (224 + c / 4096) 192); [div_lia|].
    destruct (N.ltb_spec (224 + c / 4096) 224); [div_lia|].
    destruct (N.ltb_spec (224 + c / 4096) 240); [|div_lia].
    f_equal. div_lia.
  - change (String ?a (String ?b (String ?d (String ?e ""))) +:+ s)
      with (String a (String b (String d (String e s)))).
    cbn [utf8_decode]. rewrite !byte_of_N by div_lia.
    destruct (N.ltb_spec (240 + c / 262144) 192); [div_lia|].
    destruct (N.ltb_spec (240 + c / 262144) 224); [div_lia|].
    destruct (N.ltb_spec (240 + c / 262144) 240); [div_lia|].
    f_equal. div_lia.
Qed.

Lemma utf8_decode_encode t :
  Forall is_code_point t → utf8_decode (utf8_encode t) = t.
Proof.
  induction 1 as [|c t Hc _ IH]; [done|]. simpl.
  by rewrite utf8_decode_char, IH.
Qed.

Lemma utf8_encode_inj t1 t2 :
  Forall is_code_point t1 → Forall is_code_point t2 →
  utf8_encode t1 = utf8_encode t2 → t1 = t2.
Proof.
  intros H1 H2 Heq. apply (f_equal utf8_decode) in Heq.
  by rewrite !utf8_decode_encode in Heq.
Qed.

Lemma utf8_encode_empty t : utf8_encode t = "" ↔ t = [].
Proof.
  split; [|by intros ->]. destruct t as [|c t]; [done|]. simpl.
  unfold utf8_encode_char.
  by repeat match goal with |- context [if ?b then _ else _] => destruct b end.
Qed.

Lemma not_whitespace c : isspace c = false ↔ c ∉ unicode_whitespace.
Proof.
  rewrite <-isspace_whitespace. by destruct (isspace c).
Qed.

Lemma lstrip_split t :
  ∃ pre, t = pre ++ lstrip t ∧ Forall (.∈ unicode_whitespace) pre.
Proof.
  induction t as [|c t (pre & Ht & Hpre)]; simpl.
  - by exists [].
  - destruct (isspace c) eqn:Hc.
    + exists (c :: pre). split; [by rewrite Ht at 1|].
      constructor; [by apply isspace_whitespace | done].
    + by exists [].
Qed.

Lemma lstrip_head t c t' : lstrip t = c :: t' → c ∉ unicode_whitespace.
Proof.
  induction t as [|a t IH]; simpl; [done|].
  destruct (isspace a) eqn:Ha; [done|]. intros [= <- _].
  by apply not_whitespace.
Qed.

Lemma rstrip_split t :
  ∃ post, t = rstrip t ++ post ∧ Forall (.∈ unicode_whitespace) post.
Proof.
  induction t as [|c t (post & Ht & Hpost)]; simpl.
  - by exists [].
  - destruct (rstrip t) as [|a r] eqn:Hr.
    + destruct (isspace c) eqn:Hc.
      * exists (c :: post). simpl in *. split; [by rewrite Ht at 1|].
        constructor; [by apply isspace_whitespace | done].
      * exists post. simpl in *. by rewrite Ht at 1.
    + exists post. simpl in *. by rewrite Ht at 1.
Qed.

Lemma rstrip_head t c t' : rstrip t = c :: t' → ∃ t'', t = c :: t''.
Proof.
  destruct t as [|a t]; simpl; [done|].
  destruct (rstrip t); [destruct (isspace a)|]; intros [= <- _]; by eexists.
Qed.

Lemma rstrip_last t c t' : rstrip t = t' ++ [c] → c ∉ unicode_whitespace.
Proof.
  revert t'. induction t as [|a t IH]; intros t'; simpl.
  - by destruct t'.
  - destruct (rstrip t) as [|b r] eqn:Hr.
    + destruct (isspace a) eqn:Ha; [by destruct t'|].
      destruct t' as [|x [|y t']]; simpl; [|done..].
      intros [= <-]. by apply not_whitespace.
    + destruct t' as [|x t']; simpl; [done|].
      intros [= _ Ht]. by apply (IH t').
Qed.

Lemma strip_text_is_trim t : is_trim_of t (strip_text t).
Proof.
  unfold strip_text. split_and!.
  - destruct (lstrip_split t) as (pre & Ht & Hpre).
    destruct (rstrip_split (lstrip t)) as (post & Hl & Hpost).
    exists pre, post. by rewrite <-Hl.
  - intros c t' Ht. apply rstrip_head in Ht as [t'' Ht].
    by apply lstrip_head in Ht.
  - intros c t' Ht. by apply rstrip_last in Ht.
Qed.

Lemma lstrip_space pre u :
  Forall (.∈ unicode_whitespace) pre → lstrip (pre ++ u) = lstrip u.
Proof.
  induction 1 as [|c pre Hc%isspace_whitespace _ IH]; simpl; [done|].
  by rewrite Hc.
Qed.

Lemma rstrip_space post :
  Forall (.∈ unicode_whitespace) post → rstrip post = [].
Proof.
  induction 1 as [|c post Hc%isspace_whitespace _ IH]; simpl; [done|].
  by rewrite IH, Hc.
Qed.

Lemma rstrip_app_space t post :
  Forall (.∈ unicode_whitespace) post → rstrip (t ++ post) = rstrip t.
Proof.
  intros Hpost. induction t as [|c t IH]; simpl.
  - by apply rstrip_space.
  - by rewrite IH.
Qed.

Lemma rstrip_fixed t :
  (∀ c t', t = t' ++ [c] → c ∉ unicode_whitespace) → rstrip t = t.
Proof.
  induction t as [|c t IH]; simpl; [done|]. intros Hlast.
  rewrite IH.
  - destruct t as [|a t]; [|done].
    by rewrite (proj2 (not_whitespace c) (Hlast c [] eq_refl)).
  - intros a t' ->. by apply (Hlast a (c :: t')).
Qed.

Lemma trim_unique s t : is_trim_of s t → t = strip_text s.
Proof.
  intros [(pre & post & -> & Hpre & Hpost) [Hhead Hlast]].
  unfold strip_text. rewrite (lstrip_space _ _ Hpre).
  destruct t as [|c t].
  - simpl. destruct (lstrip_split post) as (p & Hp & _).
    assert (Hl : Forall (.∈ unicode_whitespace) (lstrip post)).
    { rewrite Hp in Hpost. by apply Forall_app in Hpost as [_ ?]. }
    by rewrite rstrip_space.
  - change (lstrip ((c :: t) ++ post))
      with (if isspace c then lstrip (t ++ post) else (c :: t) ++ post).
    rewrite (proj2 (not_whitespace c) (Hhead c t eq_refl)).
    by rewrite (rstrip_app_space (c :: t) _ Hpost), rstrip_fixed.
Qed.

Lemma strip_text_valid t :
  Forall is_code_point t → Forall is_code_point (strip_text t).
Proof.
  intros Ht. destruct (strip_text_is_trim t) as [(pre & post & Hs & _) _].
  rewrite Hs in Ht. apply Forall_app in Ht as [_ Ht].
  by apply Forall_app in Ht as [Ht _].
Qed.

Lemma strip_utf8 t :
  Forall is_code_point t → strip (utf8_encode t) = utf8_encode (strip_text t).
Proof. intros Ht. unfold strip. by rewrite utf8_decode_encode. Qed.

Lemma strip_text_empty t :
  strip_text t = [] ↔ Forall (.∈ unicode_whitespace) t.
Proof.
  split.
  - intros Ht.
    destruct (strip_text_is_trim t) as [(pre & post & Hsplit & ? & ?) _].
    rewrite Ht in Hsplit. rewrite Hsplit. by apply Forall_app.
  - intros Ht. symmetry. apply trim_unique. split_and!.
    + exists t, []. by rewrite !app_nil_r.
    + done.
    + intros c [|a t']; done.
Qed.

Lemma strip_text_fixed t :
  strip_text t = t ↔
  (∀ c u, t = c :: u → c ∉ unicode_whitespace)
  ∧ (∀ c u, t = u ++ [c] → c ∉ unicode_whitespace).
Proof.
  destruct (strip_text_is_trim t) as [_ [Hhead Hlast]]. split.
  - intros Ht. by rewrite Ht in Hhead, Hlast.
  - intros [? ?]. symmetry. apply trim_unique. split_and!; [|done..].
    exists [], []. by rewrite app_nil_r.
Qed.

Lemma strip_text_length t : length (strip_text t) ≤ length t.
Proof.
  destruct (strip_text_is_trim t) as [(pre & post & Hsplit & _) _].
  rewrite Hsplit at 2. rewrite !length_app. lia.
Qed.

Example strip_hello : strip "  Hello there  " = "Hello there".
Proof. reflexivity. Qed.

Example strip_padded : strip (utf8_encode padded_text) = "Hello there".
Proof. reflexivity. Qed.

Example strip_inner_kept :
  strip (utf8_encode ([9] ++ text "a  b" ++ [10])%N) = "a  b".
Proof. reflexivity. Qed.

Example strip_blank : strip (utf8_encode blank_text) = "".
Proof. reflexivity. Qed.

Example strip_keeps_astral :
  strip (utf8_encode [32; 128512; 233; 8364; 10]%N)
  = utf8_encode [128512; 233; 8364]%N.
Proof. reflexivity. Qed.

Lemma reply_text_content reply :
  reply_text reply = reply_content reply ≫= py_strip.
Proof.
  unfold reply_text, reply_content.
  destruct (py_getitem reply "choices") as [choices|]; [|done]. simpl.
  destruct (py_getitem_index choices 0) as [choice|]; [|done]. simpl.
  by destruct (py_getitem choice "message").
Qed.

Lemma py_getitem_error v k e :
  py_getitem v k = Raise e → extraction_error e = true.
Proof.
  destruct v as [| | |d]; simpl; try by intros [= <-].
  destruct (d !! k); [done|]. by intros [= <-].
Qed.

Lemma py_getitem_index_error v i e :
  py_getitem_index v i = Raise e → extraction_error e = true.
Proof.
  destruct v as [|s|l|d]; simpl; try by intros [= <-].
  - destruct (utf8_decode s !! i); [done|]. by intros [= <-].
  - destruct (l !! i); [done|]. by intros [= <-].
Qed.

Lemma reply_text_error reply e :
  reply_text reply = Raise e → extraction_error e = true.
Proof.
  unfold reply_text.
  destruct (py_getitem reply "choices") as [choices|e1] eqn:H1; simpl;
    [|intros [= <-]; by eapply py_getitem_error].
  destruct (py_getitem_index choices 0) as [choice|e2] eqn:H2; simpl;
    [|intros [= <-]; by eapply py_getitem_index_error].
  destruct (py_getitem choice "message") as [msg|e3] eqn:H3; simpl;
    [|intros [= <-]; by eapply py_getitem_error].
  destruct (py_getitem msg "content") as [content|e4] eqn:H4; simpl;
    [|intros [= <-]; by eapply py_getitem_error].
  destruct content; simpl; by intros [= <-].
Qed.

(** * Properties of the conversation completer *)

Section properties.
Variable MODEL_NAME : string.
Variable provider : string → list message → outcome pyval.

Lemma returned_is_live ℓ h w ℓ' :
  heap w !! ℓ = Some h →
  let r := get_agent_response MODEL_NAME provider ℓ w in
  r.1 = Return ℓ' →
  ∃ conv, respond MODEL_NAME provider h = Return conv
          ∧ heap r.2 !! ℓ' = Some conv.
Proof.
  intros Hℓ r Hret.
  pose proof (run_on_conversation MODEL_NAME provider h w) as Hc.
  pose proof (run_on_observed MODEL_NAME provider h w) as Ho.
  rewrite <-(get_agent_response_run _ _ _ _ _ Hℓ) in Hc, Ho.
  fold r in Hc, Ho. unfold conversation_of in Hc. unfold observed in Ho.
  rewrite Hret in Hc, Ho.
  destruct (respond MODEL_NAME provider h) as [conv|]; [|done]. eauto.
Qed.

Lemma respond_inv h conv :
  respond MODEL_NAME provider h = Return conv →
  ∃ b reply txt,
    prompt_missing h = Return b
    ∧ provider MODEL_NAME (effective b h) = Return reply
    ∧ reply_text reply = Return txt
    ∧ conv = effective b h ++ [assistant_message txt].
Proof.
  unfold respond. destruct (prompt_missing h) as [b|]; [|done]. simpl.
  destruct (provider MODEL_NAME (effective b h)) as [reply|] eqn:Hr;
    [|done].
  simpl. destruct (reply_text reply) as [txt|] eqn:Ht; [|done]. simpl.
  intros [= <-]. by exists b, reply, txt.
Qed.

Lemma raised_is_respond ℓ h w e :
  heap w !! ℓ = Some h →
  respond MODEL_NAME provider h = Raise e →
  let r := get_agent_response MODEL_NAME provider ℓ w in
  r.1 = Raise e ∧ conversation_of r = None.
Proof.
  intros Hℓ Hresp r.
  pose proof (run_on_conversation MODEL_NAME provider h w) as Hc.
  pose proof (run_on_observed MODEL_NAME provider h w) as Ho.
  rewrite <-(get_agent_response_run _ _ _ _ _ Hℓ) in Hc, Ho.
  fold r in Hc, Ho. rewrite Hresp in Hc, Ho. split; [|done].
  unfold observed in Ho. destruct r.1; [done|]. by injection Ho as ->.
Qed.

(** C1 (default prefixing). When the list passed in is empty, or its first
    message has a role other than "system", the provider receives exactly
    one request, for the system message with [SYSTEM_PROMPT] followed by
    the whole input in order, and whatever conversation comes back is that
    same sequence followed by the assistant's message. *)
Theorem default_prefixing ℓ h w :
  heap w !! ℓ = Some h →
  (h = [] ∨ ∃ first role,
      head h = Some first ∧ first !! "role" = Some role ∧ role ≠ "system") →
  let r := get_agent_response MODEL_NAME provider ℓ w in
  requests w r = [(MODEL_NAME, system_message :: h)]
  ∧ observed r =
      (reply ← provider MODEL_NAME (system_message :: h);
       txt ← reply_text reply;
       mret ((system_message :: h) ++ [assistant_message txt]))
  ∧ ∀ conv, conversation_of r = Some conv →
      removelast conv = system_message :: h.
Proof.
  intros Hℓ Hh r. subst r. rewrite (get_agent_response_run _ _ _ _ _ Hℓ).
  assert (Hm : prompt_missing h = Return true).
  { destruct Hh as [->|(first & role & Hfirst & Hrole & Hne)]; [done|].
    destruct h as [|m t]; simplify_eq/=. rewrite Hrole.
    by rewrite bool_decide_eq_true_2. }
  rewrite run_on_requests, run_on_observed, run_on_conversation.
  unfold respond. rewrite Hm. simpl. split_and!; [done..|].
  intros conv.
  destruct (provider MODEL_NAME (system_message :: h)) as [reply|];
    [|done]. simpl.
  destruct (reply_text reply) as [txt|]; [|done]. simpl.
  intros [= <-]. apply (removelast_last (system_message :: h)).
Qed.

(** C2 (idempotent prefixing). When the first message of the list passed in
    already has role "system", the provider receives the input as it is,
    the returned conversation without its last element is the input, its
    first element is the caller's own system message whatever its content,
    and it is exactly one element longer than the input. *)
Theorem idempotent_prefixing ℓ first t w :
  heap w !! ℓ = Some (first :: t) →
  first !! "role" = Some "system" →
  let r := get_agent_response MODEL_NAME provider ℓ w in
  requests w r = [(MODEL_NAME, first :: t)]
  ∧ observed r =
      (reply ← provider MODEL_NAME (first :: t);
       txt ← reply_text reply;
       mret ((first :: t) ++ [assistant_message txt]))
  ∧ ∀ conv, conversation_of r = Some conv →
      removelast conv = first :: t
      ∧ head conv = Some first
      ∧ length conv = S (length (first :: t)).
Proof.
  intros Hℓ Hrole r. subst r. rewrite (get_agent_response_run _ _ _ _ _ Hℓ).
  assert (Hm : prompt_missing (first :: t) = Return false).
  { simpl. rewrite Hrole. by rewrite bool_decide_eq_false_2 by auto. }
  rewrite run_on_requests, run_on_observed, run_on_conversation.
  unfold respond. rewrite Hm. simpl. split_and!; [done..|].
  intros conv.
  destruct (provider MODEL_NAME (first :: t)) as [reply|]; [|done]. simpl.
  destruct (reply_text reply) as [txt|]; [|done]. simpl.
  intros [= <-]. split_and!; [|done|].
  - apply (removelast_last (first :: t)).
  - simpl. rewrite length_app. simpl. lia.
Qed.

(** C3 (append-only growth). Whenever the call returns, the returned list is
    the history that was sent to the provider followed by exactly one more
    message; that message has role "assistant", the length is the length of
    the sent history plus one, and the result is at least as long as the
    input. *)
Theorem append_only_growth ℓ h w ℓ' :
  heap w !! ℓ = Some h →
  let r := get_agent_response MODEL_NAME provider ℓ w in
  r.1 = Return ℓ' →
  ∃ eff txt conv,
    requests w r = [(MODEL_NAME, eff)]
    ∧ (eff = h ∨ eff = system_message :: h)
    ∧ heap r.2 !! ℓ' = Some conv
    ∧ conv = eff ++ [assistant_message txt]
    ∧ length conv = length eff + 1
    ∧ (∃ m, last conv = Some m ∧ m !! "role" = Some "assistant")
    ∧ length h ≤ length conv.
Proof.
  intros Hℓ r Hret.
  destruct (returned_is_live _ _ _ _ Hℓ Hret) as (conv & Hresp & Hconv).
  destruct (respond_inv _ _ Hresp) as (b & reply & txt & Hb & _ & _ & ->).
  exists (effective b h), txt, (effective b h ++ [assistant_message txt]).
  assert (Hreq : requests w r = [(MODEL_NAME, effective b h)]).
  { subst r.
    by rewrite (get_agent_response_run _ _ _ _ _ Hℓ), run_on_requests, Hb. }
  split_and!; try done.
  - destruct b; auto.
  - by rewrite length_app.
  - exists (assistant_message txt). by rewrite last_snoc.
  - rewrite length_app. destruct b; simpl; lia.
Qed.

(** C4, as the code has it. When the provider returns a value from which no
    reply text can be extracted, the call raises the exception of the failing
    subscript or attribute access and returns no conversation: [KeyError] for
    a missing "choices" key, [IndexError] for an empty list of choices. The
    exception is one of the interpreter's own lookup, type or attribute
    errors, not a dedicated error type. *)
Theorem malformed_response_raises ℓ h w b reply e :
  heap w !! ℓ = Some h →
  prompt_missing h = Return b →
  provider MODEL_NAME (effective b h) = Return reply →
  reply_text reply = Raise e →
  let r := get_agent_response MODEL_NAME provider ℓ w in
  r.1 = Raise e
  ∧ conversation_of r = None
  ∧ extraction_error e = true
  ∧ (∀ d, reply = PDict d → d !! "choices" = None →
       e = KeyError (KStr "choices"))
  ∧ (∀ d, reply = PDict d → d !! "choices" = Some (PList []) →
       e = IndexError "list index out of range").
Proof.
  intros Hℓ Hb Hreply He r.
  assert (Hresp : respond MODEL_NAME provider h = Raise e).
  { unfold respond. rewrite Hb. simpl. rewrite Hreply. simpl. by rewrite He. }
  destruct (raised_is_respond _ _ _ _ Hℓ Hresp) as [Hraise Hconv].
  split_and!; [done | done | by eapply reply_text_error | |].
  - intros d -> Hd. unfold reply_text in He. simpl in He.
    rewrite Hd in He. by simplify_eq/=.
  - intros d -> Hd. unfold reply_text in He. simpl in He.
    rewrite Hd in He. by simplify_eq/=.
Qed.

(** C6 (completion failure). When the provider raises, the call raises the
    same exception and returns no conversation. In every case the call either
    raises and returns nothing, or returns the history that was sent followed
    by the assistant's message: there is no result in between. *)
Theorem completion_failure_propagates ℓ h w :
  heap w !! ℓ = Some h →
  let r := get_agent_response MODEL_NAME provider ℓ w in
  (∀ b e, prompt_missing h = Return b →
          provider MODEL_NAME (effective b h) = Raise e →
          r.1 = Raise e ∧ conversation_of r = None
          ∧ requests w r = [(MODEL_NAME, effective b h)])
  ∧ ((∃ e, r.1 = Raise e ∧ conversation_of r = None)
     ∨ (∃ ℓ' b txt, r.1 = Return ℓ'
          ∧ prompt_missing h = Return b
          ∧ conversation_of r
            = Some (effective b h ++ [assistant_message txt]))).
Proof.
  intros Hℓ r. split.
  - intros b e Hb He.
    assert (Hresp : respond MODEL_NAME provider h = Raise e).
    { unfold respond. rewrite Hb. simpl. by rewrite He. }
    destruct (raised_is_respond _ _ _ _ Hℓ Hresp) as [Hraise Hconv].
    split_and!; [done..|]. subst r.
    by rewrite (get_agent_response_run _ _ _ _ _ Hℓ), run_on_requests, Hb.
  - destruct r.1 as [ℓ'|e] eqn:Hret.
    + right.
      destruct (returned_is_live _ _ _ _ Hℓ Hret) as (conv & Hresp & Hconv).
      destruct (respond_inv _ _ Hresp) as (b & reply & txt & Hb & _ & _ & ->).
      exists ℓ', b, txt. split_and!; [done..|].
      unfold conversation_of. by rewrite Hret.
    + left. exists e. split; [done|]. unfold conversation_of. by rewrite Hret.
Qed.

(** C7 (whitespace trimming). Whatever text the provider replies with, the
    call returns, and the message appended to the conversation has role
    "assistant" and as content that text with leading and trailing
    whitespace removed: the one text that is left of the reply once a run
    of whitespace code points is taken off each end and that neither starts
    nor ends with one. *)
Theorem whitespace_trimming ℓ h w b reply t :
  heap w !! ℓ = Some h →
  prompt_missing h = Return b →
  provider MODEL_NAME (effective b h) = Return reply →
  Forall is_code_point t →
  reply_content reply = Return (PStr (utf8_encode t)) →
  ∃ conv m,
    conversation_of (get_agent_response MODEL_NAME provider ℓ w) = Some conv
    ∧ last conv = Some m
    ∧ m !! "role" = Some "assistant"
    ∧ m !! "content" = Some (utf8_encode (strip_text t))
    ∧ is_trim_of t (strip_text t)
    ∧ ∀ u, is_trim_of t u → u = strip_text t.
Proof.
  intros Hℓ Hb Hreply Ht Hs.
  exists (effective b h ++ [assistant_message (utf8_encode (strip_text t))]),
    (assistant_message (utf8_encode (strip_text t))).
  rewrite (get_agent_response_run _ _ _ _ _ Hℓ), run_on_conversation.
  unfold respond. rewrite Hb. simpl. rewrite Hreply. simpl.
  rewrite reply_text_content, Hs. simpl. rewrite (strip_utf8 _ Ht).
  split_and!; [done | by rewrite last_snoc | done | done | |].
  - apply strip_text_is_trim.
  - apply trim_unique.
Qed.

(** C8 (non-mutation). After the call the list object passed in has the
    contents it had before, and so has every other object that existed: the
    store has only grown. A returned list is an object that did not exist
    before the call, so it is not the argument. *)
Theorem input_not_mutated ℓ h w :
  heap w !! ℓ = Some h →
  let r := get_agent_response MODEL_NAME provider ℓ w in
  heap r.2 !! ℓ = Some h
  ∧ heap w `prefix_of` heap r.2
  ∧ ∀ ℓ', r.1 = Return ℓ' → ℓ' ≠ ℓ ∧ heap w !! ℓ' = None.
Proof.
  intros Hℓ r. subst r. rewrite (get_agent_response_run _ _ _ _ _ Hℓ).
  pose proof (run_on_heap MODEL_NAME provider h w) as Hpre.
  split_and!; [|done|].
  - destruct Hpre as [k ->]. by apply lookup_app_l_Some.
  - intros ℓ' Hret. apply run_on_fresh in Hret.
    apply lookup_lt_Some in Hℓ. split; [lia|].
    apply lookup_ge_None. lia.
Qed.

(** C9 (partial role lookup). When the first message of a non-empty list has
    no "role" key the call raises [KeyError] for that key and leaves the
    whole state as it was: no request was sent and no list was built. When
    the list is empty or its first message has a "role" key, that error does
    not arise: one request is sent, and an exception, if any, comes from the
    provider or from the extraction of the reply. *)
Theorem role_lookup_partial ℓ h w :
  heap w !! ℓ = Some h →
  let r := get_agent_response MODEL_NAME provider ℓ w in
  (∀ first, head h = Some first → first !! "role" = None →
     r = (Raise (KeyError (KStr "role")), w) ∧ requests w r = [])
  ∧ ((h = [] ∨ ∃ first, head h = Some first ∧ is_Some (first !! "role")) →
     ∃ b, prompt_missing h = Return b
       ∧ requests w r = [(MODEL_NAME, effective b h)]
       ∧ ∀ e, r.1 = Raise e →
           provider MODEL_NAME (effective b h) ≫= reply_text = Raise e).
Proof.
  intros Hℓ r. subst r. rewrite (get_agent_response_run _ _ _ _ _ Hℓ). split.
  - intros first Hfirst Hrole. destruct h as [|m t]; simplify_eq/=.
    rewrite run_on_requests. unfold run_on. simpl. by rewrite Hrole.
  - intros Hh.
    assert (∃ b, prompt_missing h = Return b) as [b Hb].
    { destruct Hh as [->|(first & Hfirst & [role Hrole])]; [by eexists|].
      destruct h as [|m t]; simplify_eq/=. rewrite Hrole. by eexists. }
    exists b. rewrite run_on_requests, Hb. split_and!; [done..|].
    intros e. unfold run_on. rewrite Hb. simpl.
    destruct (provider MODEL_NAME (effective b h) ≫= reply_text); simpl;
      [intros [=] | by intros [= ->]].
Qed.

(** C10 (determinism). The result the caller sees is a function of the
    contents of the argument, of [SYSTEM_PROMPT], [MODEL_NAME] and the
    provider: two calls on lists with equal contents, in any two states, see
    equal results and send equal requests, and so does a second call made
    after a first one. *)
Theorem get_agent_response_deterministic ℓ1 ℓ2 h w1 w2 :
  heap w1 !! ℓ1 = Some h →
  heap w2 !! ℓ2 = Some h →
  let r1 := get_agent_response MODEL_NAME provider ℓ1 w1 in
  let r2 := get_agent_response MODEL_NAME provider ℓ2 w2 in
  observed r1 = respond MODEL_NAME provider h
  ∧ observed r1 = observed r2
  ∧ requests w1 r1 = requests w2 r2
  ∧ observed (get_agent_response MODEL_NAME provider ℓ1 r1.2) = observed r1.
Proof.
  intros H1 H2 r1 r2.
  assert (H1' : heap r1.2 !! ℓ1 = Some h).
  { subst r1. rewrite (get_agent_response_run _ _ _ _ _ H1).
    destruct (run_on_heap MODEL_NAME provider h w1) as [k ->].
    by apply lookup_app_l_Some. }
  rewrite (get_agent_response_run _ _ _ _ _ H1'). subst r1 r2.
  rewrite (get_agent_response_run _ _ _ _ _ H1).
  rewrite (get_agent_response_run _ _ _ _ _ H2).
  by rewrite !run_on_observed, !run_on_requests.
Qed.
End properties.

Lemma module_init_run dotenv w :
  module_init dotenv w =
    (Return (default "gpt-4o-mini" ((environ w ∪ dotenv) !! "MODEL_NAME")),
     World (environ w ∪ dotenv) (heap w) (calls w)).
Proof. reflexivity. Qed.

(** C5, as the code has it. Importing the module never raises and sends no
    request, whatever the environment and the [.env] file hold: [MODEL_NAME]
    is the value of that variable when it is set, in the environment first
    and in the file otherwise, and "gpt-4o-mini" when it is set in neither.
    No other variable is read. *)
Theorem module_init_total dotenv w :
  module_init dotenv w =
    (Return (default "gpt-4o-mini" ((environ w ∪ dotenv) !! "MODEL_NAME")),
     World (environ w ∪ dotenv) (heap w) (calls w))
  ∧ is_raise (module_init dotenv w).1 = false
  ∧ calls (module_init dotenv w).2 = calls w
  ∧ ((environ w ∪ dotenv) !! "MODEL_NAME" = None →
     (module_init dotenv w).1 = Return "gpt-4o-mini").
Proof.
  rewrite module_init_run. split_and!; [done..|]. simpl. by intros ->.
Qed.

(** * The two readings the code does not satisfy *)

(** C4, as stated, fails. With an empty input list, a provider that returns
    an empty list of choices and a provider that itself raises
    [IndexError("list index out of range")] leave the caller with the same
    exception. *)
Lemma malformed_not_distinct :
  observed (get_agent_response "gpt-4o-mini" no_choices 0 w_empty)
    = Raise (IndexError "list index out of range")
  ∧ observed (get_agent_response "gpt-4o-mini"
                (provider_down (IndexError "list index out of range"))
                0 w_empty)
    = Raise (IndexError "list index out of range")
  ∧ ¬ malformed_is_distinct.
Proof.
  assert (Hℓ : heap w_empty !! 0 = Some []) by reflexivity.
  assert (H1 : observed (get_agent_response "gpt-4o-mini" no_choices 0 w_empty)
               = Raise (IndexError "list index out of range")).
  { by rewrite (get_agent_response_run _ _ _ _ _ Hℓ), run_on_observed. }
  assert (H2 : observed (get_agent_response "gpt-4o-mini"
                 (provider_down (IndexError "list index out of range"))
                 0 w_empty)
               = Raise (IndexError "list index out of range")).
  { by rewrite (get_agent_response_run _ _ _ _ _ Hℓ), run_on_observed. }
  split_and!; [done..|]. intros Hdistinct.
  apply (Hdistinct "gpt-4o-mini" no_choices
           (provider_down (IndexError "list index out of range"))
           0 [] w_empty Hℓ).
  - intros model l. by eexists.
  - done.
  - by rewrite H1, H2.
Qed.

(** C5, as stated, fails. With an empty environment and no [.env] file the
    import of the module returns normally, with the fallback model name. *)
Lemma startup_does_not_check :
  module_init ∅ w0 = (Return "gpt-4o-mini", w0)
  ∧ ¬ startup_checks_configuration.
Proof.
  split; [reflexivity|]. intros [key Hkey].
  specialize (Hkey ∅ w0). rewrite module_init_run in Hkey.
  simpl in Hkey. assert (false = true); [|done]. by apply Hkey.
Qed.

(** * The theorems at concrete inputs *)

Lemma default_prefixing_witness :
  heap w_user !! 0 = Some [user_message "I have eggs and flour"]
  ∧ requests w_user (get_agent_response "gpt-4o-mini" echo 0 w_user)
    = [("gpt-4o-mini",
        [system_message; user_message "I have eggs and flour"])]
  ∧ observed (get_agent_response "gpt-4o-mini" echo 0 w_user)
    = Return [system_message; user_message "I have eggs and flour";
              assistant_message "Hello there"].
Proof.
  split; [reflexivity|].
  destruct (default_prefixing "gpt-4o-mini" echo 0
              [user_message "I have eggs and flour"] w_user)
    as (Hreq & Hobs & _).
  - reflexivity.
  - right. exists (user_message "I have eggs and flour"), "user".
    split; [reflexivity|]. split; [reflexivity|]. discriminate.
  - split; [exact Hreq|]. rewrite Hobs. reflexivity.
Defined.

Lemma idempotent_prefixing_witness :
  heap w_custom !! 0 = Some [custom_system; user_message "hi"]
  ∧ custom_system !! "role" = Some "system"
  ∧ custom_system !! "content" ≠ Some SYSTEM_PROMPT
  ∧ observed (get_agent_response "gpt-4o-mini" echo 0 w_custom)
    = Return [custom_system; user_message "hi";
              assistant_message "Hello there"].
Proof.
  split; [reflexivity|]. split; [reflexivity|]. split; [discriminate|].
  destruct (idempotent_prefixing "gpt-4o-mini" echo 0
              custom_system [user_message "hi"] w_custom)
    as (_ & Hobs & _).
  - reflexivity.
  - reflexivity.
  - rewrite Hobs. reflexivity.
Defined.

Lemma append_only_growth_witness :
  heap w_custom !! 0 = Some [custom_system; user_message "hi"]
  ∧ (get_agent_response "gpt-4o-mini" echo 0 w_custom).1 = Return 2
  ∧ ∃ eff txt conv,
      requests w_custom (get_agent_response "gpt-4o-mini" echo 0 w_custom)
      = [("gpt-4o-mini", eff)]
      ∧ (eff = [custom_system; user_message "hi"]
         ∨ eff = system_message :: [custom_system; user_message "hi"])
      ∧ heap (get_agent_response "gpt-4o-mini" echo 0 w_custom).2 !! 2
        = Some conv
      ∧ conv = eff ++ [assistant_message txt]
      ∧ length conv = length eff + 1
      ∧ (∃ m, last conv = Some m ∧ m !! "role" = Some "assistant")
      ∧ length [custom_system; user_message "hi"] ≤ length conv.
Proof.
  split; [reflexivity|]. split; [reflexivity|].
  apply (append_only_growth "gpt-4o-mini" echo 0
           [custom_system; user_message "hi"] w_custom 2); reflexivity.
Defined.

Lemma malformed_response_raises_witness :
  heap w_empty !! 0 = Some []
  ∧ prompt_missing [] = Return true
  ∧ reply_text (PDict {[ "choices" := PList [] ]})
    = Raise (IndexError "list index out of range")
  ∧ (get_agent_response "gpt-4o-mini" no_choices 0 w_empty).1
    = Raise (IndexError "list index out of range")
  ∧ conversation_of (get_agent_response "gpt-4o-mini" no_choices 0 w_empty)
    = None.
Proof.
  split; [reflexivity|]. split; [reflexivity|]. split; [reflexivity|].
  destruct (malformed_response_raises "gpt-4o-mini" no_choices 0 [] w_empty
              true (PDict {[ "choices" := PList [] ]})
              (IndexError "list index out of range"))
    as (Hraise & Hconv & _); [reflexivity..|].
  split; [exact Hraise | exact Hconv].
Defined.

Lemma completion_failure_propagates_witness :
  heap w_user !! 0 = Some [user_message "I have eggs and flour"]
  ∧ (get_agent_response "gpt-4o-mini"
       (provider_down (OtherError "RateLimitError" "quota exceeded"))
       0 w_user).1
    = Raise (OtherError "RateLimitError" "quota exceeded")
  ∧ conversation_of
      (get_agent_response "gpt-4o-mini"
         (provider_down (OtherError "RateLimitError" "quota exceeded"))
         0 w_user)
    = None.
Proof.
  split; [reflexivity|].
  destruct (completion_failure_propagates "gpt-4o-mini"
              (provider_down (OtherError "RateLimitError" "quota exceeded"))
              0 [user_message "I have eggs and flour"] w_user)
    as [Hfail _]; [reflexivity|].
  destruct (Hfail true (OtherError "RateLimitError" "quota exceeded"))
    as (Hraise & Hconv & _); [reflexivity..|].
  split; [exact Hraise | exact Hconv].
Defined.

Lemma whitespace_trimming_witness :
  heap w_empty !! 0 = Some []
  ∧ Forall is_code_point (text "  Hello there  ")
  ∧ Forall is_code_point padded_text
  ∧ reply_content (response_with (PStr "  Hello there  "))
    = Return (PStr (utf8_encode (text "  Hello there  ")))
  ∧ (∃ conv m,
      conversation_of (get_agent_response "gpt-4o-mini" echo 0 w_empty)
      = Some conv
      ∧ last conv = Some m
      ∧ m !! "role" = Some "assistant"
      ∧ m !! "content" = Some "Hello there")
  ∧ (∃ conv m,
      conversation_of (get_agent_response "gpt-4o-mini" echo_padded 0 w_empty)
      = Some conv
      ∧ last conv = Some m
      ∧ m !! "role" = Some "assistant"
      ∧ m !! "content" = Some "Hello there").
Proof.
  assert (Hplain : Forall is_code_point (text "  Hello there  ")).
  { apply Forall_forall. intros c Hc. apply list_elem_of_In in Hc.
    simpl in Hc. unfold is_code_point. repeat (destruct Hc as [<-|Hc]; [lia|]).
    destruct Hc. }
  assert (Hpadded : Forall is_code_point padded_text).
  { apply Forall_forall. intros c Hc. apply list_elem_of_In in Hc.
    simpl in Hc. unfold is_code_point. repeat (destruct Hc as [<-|Hc]; [lia|]).
    destruct Hc. }
  split; [reflexivity|]. split; [exact Hplain|]. split; [exact Hpadded|].
  split; [reflexivity|]. split.
  - destruct (whitespace_trimming "gpt-4o-mini" echo 0 [] w_empty true
                (response_with (PStr "  Hello there  "))
                (text "  Hello there  "))
      as (conv & m & Hconv & Hlast & Hrole & Hcontent & _);
      [reflexivity | reflexivity | reflexivity | exact Hplain | reflexivity |].
    exists conv, m. repeat split; assumption.
  - destruct (whitespace_trimming "gpt-4o-mini" echo_padded 0 [] w_empty true
                (response_with (PStr (utf8_encode padded_text))) padded_text)
      as (conv & m & Hconv & Hlast & Hrole & Hcontent & _);
      [reflexivity | reflexivity | reflexivity | exact Hpadded | reflexivity |].
    exists conv, m. repeat split; assumption.
Defined.

Lemma input_not_mutated_witness :
  heap w_custom !! 0 = Some [custom_system; user_message "hi"]
  ∧ heap (get_agent_response "gpt-4o-mini" echo 0 w_custom).2 !! 0
    = Some [custom_system; user_message "hi"]
  ∧ (get_agent_response "gpt-4o-mini" echo 0 w_custom).1 = Return 2.
Proof.
  split; [reflexivity|].
  destruct (input_not_mutated "gpt-4o-mini" echo 0
              [custom_system; user_message "hi"] w_custom)
    as (Hsame & _); [reflexivity|].
  split; [exact Hsame | reflexivity].
Defined.

Lemma role_lookup_partial_witness :
  heap w_no_role !! 0 = Some [ {[ "content" := "hi" ]} ]
  ∧ get_agent_response "gpt-4o-mini" echo 0 w_no_role
    = (Raise (KeyError (KStr "role")), w_no_role)
  ∧ requests w_no_role (get_agent_response "gpt-4o-mini" echo 0 w_no_role)
    = [].
Proof.
  split; [reflexivity|].
  destruct (role_lookup_partial "gpt-4o-mini" echo 0
              [ {[ "content" := "hi" ]} ] w_no_role)
    as [Hmissing _]; [reflexivity|].
  apply (Hmissing {[ "content" := "hi" ]}); reflexivity.
Defined.

Lemma get_agent_response_deterministic_witness :
  heap w_user !! 0 = Some [user_message "I have eggs and flour"]
  ∧ heap w_later !! 1 = Some [user_message "I have eggs and flour"]
  ∧ observed (get_agent_response "gpt-4o-mini" echo 0 w_user)
    = observed (get_agent_response "gpt-4o-mini" echo 1 w_later)
  ∧ requests w_user (get_agent_response "gpt-4o-mini" echo 0 w_user)
    = requests w_later (get_agent_response "gpt-4o-mini" echo 1 w_later).
Proof.
  split; [reflexivity|]. split; [reflexivity|].
  destruct (get_agent_response_deterministic "gpt-4o-mini" echo 0 1
              [user_message "I have eggs and flour"] w_user w_later)
    as (_ & Hobs & Hreq & _); [reflexivity..|].
  split; [exact Hobs | exact Hreq].
Defined.

Lemma module_init_total_witness :
  (environ w0 ∪ ∅) !! "MODEL_NAME" = None
  ∧ (module_init ∅ w0).1 = Return "gpt-4o-mini"
  ∧ calls (module_init ∅ w0).2 = [].
Proof.
  split; [reflexivity|].
  destruct (module_init_total ∅ w0) as (_ & _ & Hcalls & Hdefault).
  split; [apply Hdefault; reflexivity | exact Hcalls].
Defined.

(** * Further properties of the module *)

(** ** Import *)

(** X1 (where the model name comes from). The value of [MODEL_NAME] after
    import is the environment's when the variable is set there, even to the
    empty string; otherwise the [.env] file's; only when neither sets it,
    the fallback. *)
Theorem model_name_precedence dotenv w :
  let r := module_init dotenv w in
  (∀ v, environ w !! "MODEL_NAME" = Some v → r.1 = Return v)
  ∧ (∀ v, environ w !! "MODEL_NAME" = None →
          dotenv !! "MODEL_NAME" = Some v → r.1 = Return v)
  ∧ (r.1 = Return "gpt-4o-mini" →
     (environ w ∪ dotenv) !! "MODEL_NAME" = None
     ∨ (environ w ∪ dotenv) !! "MODEL_NAME" = Some "gpt-4o-mini").
Proof.
  intros r. subst r. rewrite module_init_run. simpl. split_and!.
  - intros v Hv. by rewrite (lookup_union_Some_l _ _ _ _ Hv).
  - intros v Hw Hd. rewrite lookup_union_r by done. by rewrite Hd.
  - destruct ((environ w ∪ dotenv) !! "MODEL_NAME") as [v|]; [|by left].
    simpl. intros [= ->]. by right.
Qed.

Lemma model_name_precedence_witness :
  environ w_configured !! "MODEL_NAME" = Some "gpt-4o"
  ∧ dotenv_file !! "MODEL_NAME" = Some "gpt-3.5-turbo"
  ∧ (module_init dotenv_file w_configured).1 = Return "gpt-4o"
  ∧ (module_init dotenv_file w0).1 = Return "gpt-3.5-turbo".
Proof.
  split; [reflexivity|]. split; [reflexivity|]. split.
  - destruct (model_name_precedence dotenv_file w_configured) as (Henv & _).
    apply Henv. reflexivity.
  - destruct (model_name_precedence dotenv_file w0) as (_ & Hfile & _).
    apply Hfile; reflexivity.
Defined.

(** X2 (the environment after import). Import never changes or removes a
    variable that was set; it adds the variables of the [.env] file that
    were not set, and nothing else; it leaves the store and the request log
    alone; and running it a second time changes nothing. *)
Theorem import_keeps_environment dotenv w :
  let r := module_init dotenv w in
  (∀ k v, environ w !! k = Some v → environ r.2 !! k = Some v)
  ∧ (∀ k, environ w !! k = None → environ r.2 !! k = dotenv !! k)
  ∧ heap r.2 = heap w
  ∧ calls r.2 = calls w
  ∧ module_init dotenv r.2 = r.
Proof.
  intros r. subst r. rewrite !module_init_run. simpl. split_and!; try done.
  - intros k v Hk. by apply lookup_union_Some_l.
  - intros k Hk. by apply lookup_union_r.
  - by rewrite <-(assoc_L (∪)), (idemp_L (∪)).
Qed.

Lemma import_keeps_environment_witness :
  environ w_configured !! "MODEL_NAME" = Some "gpt-4o"
  ∧ environ w_configured !! "OPENAI_API_KEY" = None
  ∧ environ (module_init dotenv_file w_configured).2 !! "MODEL_NAME"
    = Some "gpt-4o"
  ∧ environ (module_init dotenv_file w_configured).2 !! "OPENAI_API_KEY"
    = Some "sk-test".
Proof.
  split; [reflexivity|]. split; [reflexivity|].
  destruct (import_keeps_environment dotenv_file w_configured)
    as (Hkeep & Hadd & _).
  split.
  - apply Hkeep. reflexivity.
  - rewrite Hadd; reflexivity.
Defined.

(** ** The shape of a usable answer *)

Lemma system_message_role : system_message !! "role" = Some "system".
Proof. apply lookup_insert_eq. Qed.

Lemma assistant_message_content txt :
  assistant_message txt !! "content" = Some txt.
Proof. unfold assistant_message. by rewrite lookup_insert_ne. Qed.

Lemma prompt_missing_false h :
  prompt_missing h = Return false →
  ∃ first t, h = first :: t ∧ first !! "role" = Some "system".
Proof.
  destruct h as [|first t]; simpl; [done|].
  destruct (first !! "role") as [role|] eqn:Hfirst; [|done].
  case_bool_decide as Hrole; [done|]. intros _. exists first, t.
  split; [done|]. by rewrite Hfirst, Hrole.
Qed.

Lemma prompt_missing_system first t :
  first !! "role" = Some "system" →
  prompt_missing (first :: t) = Return false.
Proof. simpl. intros ->. by rewrite bool_decide_eq_false_2 by auto. Qed.

Lemma effective_head b h :
  prompt_missing h = Return b →
  ∃ first rest,
    effective b h = first :: rest
    ∧ first !! "role" = Some "system"
    ∧ (first = system_message ∨ head h = Some first).
Proof.
  destruct b; intros Hb.
  - exists system_message, h. split_and!; [done| |by left].
    apply system_message_role.
  - destruct (prompt_missing_false _ Hb) as (first & t & -> & Hrole).
    exists first, t. split_and!; [done..|by right].
Qed.

Lemma reply_content_shape reply v :
  reply_content reply = Return v ↔
  ∃ d c rest m,
    reply = PDict d
    ∧ d !! "choices" = Some (PList (PDict c :: rest))
    ∧ c !! "message" = Some (PDict m)
    ∧ m !! "content" = Some v.
Proof.
  unfold reply_content. split.
  - destruct reply as [| | |d]; simpl; try done.
    destruct (d !! "choices") as [choices|] eqn:Hd; simpl; [|done].
    destruct choices as [|s|l|d']; simpl; try done.
    { by destruct (utf8_decode s !! 0). }
    destruct l as [|choice rest]; simpl; [done|].
    destruct choice as [| | |c]; simpl; try done.
    destruct (c !! "message") as [msg|] eqn:Hc; simpl; [|done].
    destruct msg as [| | |m]; simpl; try done.
    destruct (m !! "content") as [content|] eqn:Hm; simpl; [|done].
    intros [= ->]. by exists d, c, rest, m.
  - intros (d & c & rest & m & -> & Hd & Hc & Hm). simpl.
    rewrite Hd. simpl. rewrite Hc. simpl. by rewrite Hm.
Qed.

Lemma reply_text_return reply txt :
  reply_text reply = Return txt ↔
  ∃ s, reply_content reply = Return (PStr s) ∧ txt = strip s.
Proof.
  rewrite reply_text_content. split.
  - destruct (reply_content reply) as [v|]; simpl; [|done].
    destruct v as [|s| |]; simpl; try done. intros [= <-]. by exists s.
  - intros (s & -> & ->). done.
Qed.

Lemma observed_return r conv :
  observed r = Return conv → ∃ ℓ', r.1 = Return ℓ'.
Proof. unfold observed. destruct r.1 as [ℓ'|]; [by exists ℓ' | done]. Qed.

Lemma assistant_message_inj txt1 txt2 :
  assistant_message txt1 = assistant_message txt2 → txt1 = txt2.
Proof.
  intros Heq. apply (f_equal (.!! "content")) in Heq.
  rewrite !assistant_message_content in Heq. by apply (inj Some) in Heq.
Qed.

(** Two conversations that differ in the appended message only. *)
Lemma appended_inj (eff : list message) txt1 txt2 :
  Some (eff ++ [assistant_message txt1]) = Some (eff ++ [assistant_message txt2])
  → txt1 = txt2.
Proof.
  intros Heq%(inj Some)%app_inv_head. apply (f_equal head) in Heq.
  apply (inj Some) in Heq. by apply assistant_message_inj.
Qed.

Section further.
Variable MODEL_NAME : string.
Variable provider : string → list message → outcome pyval.

(** A call on a live list returns exactly when [respond] does, and then
    the returned object holds what [respond] gives. *)
Lemma returns_respond ℓ h w conv :
  heap w !! ℓ = Some h →
  respond MODEL_NAME provider h = Return conv →
  let r := get_agent_response MODEL_NAME provider ℓ w in
  ∃ ℓ', r.1 = Return ℓ' ∧ heap r.2 !! ℓ' = Some conv.
Proof.
  intros Hℓ Hresp r.
  pose proof (run_on_observed MODEL_NAME provider h w) as Ho.
  rewrite <-(get_agent_response_run _ _ _ _ _ Hℓ), Hresp in Ho. fold r in Ho.
  destruct (observed_return _ _ Ho) as [ℓ' Hret]. exists ℓ'. split; [done|].
  destruct (returned_is_live _ _ _ _ _ _ Hℓ Hret) as (conv' & Hresp' & Hconv).
  rewrite Hresp in Hresp'. injection Hresp' as <-. exact Hconv.
Qed.

(** X3 (a system message is always first). Every conversation the function
    returns starts with a message of role "system": the one built from
    [SYSTEM_PROMPT], or else the first message of the input. *)
Theorem returned_starts_with_system ℓ h w ℓ' :
  heap w !! ℓ = Some h →
  let r := get_agent_response MODEL_NAME provider ℓ w in
  r.1 = Return ℓ' →
  ∃ first rest,
    heap r.2 !! ℓ' = Some (first :: rest)
    ∧ first !! "role" = Some "system"
    ∧ (first = system_message ∨ head h = Some first).
Proof.
  intros Hℓ r Hret.
  destruct (returned_is_live _ _ _ _ _ _ Hℓ Hret) as (conv & Hresp & Hconv).
  destruct (respond_inv _ _ _ _ Hresp) as (b & reply & txt & Hb & _ & _ & ->).
  destruct (effective_head _ _ Hb) as (first & rest & Heff & Hrole & Hfrom).
  exists first, (rest ++ [assistant_message txt]).
  subst r. rewrite Hconv, Heff. done.
Qed.

(** X4 (later turns). A conversation returned by the function, with any
    messages the caller adds after it, is sent as it is when passed in
    again: the system prompt is not put in front a second time, and the new
    result is that list with one more message. *)
Theorem later_turn_sends_unchanged ℓ h w ℓ' :
  heap w !! ℓ = Some h →
  let r := get_agent_response MODEL_NAME provider ℓ w in
  r.1 = Return ℓ' →
  ∃ conv,
    heap r.2 !! ℓ' = Some conv
    ∧ ∀ added ℓ2 w2,
        heap w2 !! ℓ2 = Some (conv ++ added) →
        let r2 := get_agent_response MODEL_NAME provider ℓ2 w2 in
        requests w2 r2 = [(MODEL_NAME, conv ++ added)]
        ∧ observed r2 =
            (reply ← provider MODEL_NAME (conv ++ added);
             txt ← reply_text reply;
             mret ((conv ++ added) ++ [assistant_message txt])).
Proof.
  intros Hℓ r Hret.
  destruct (returned_is_live _ _ _ _ _ _ Hℓ Hret) as (conv & Hresp & Hconv).
  exists conv. split; [done|]. intros added ℓ2 w2 Hℓ2 r2. subst r2.
  destruct (respond_inv _ _ _ _ Hresp) as (b & reply & txt & Hb & _ & _ & ->).
  destruct (effective_head _ _ Hb) as (first & rest & Heff & Hrole & _).
  rewrite (get_agent_response_run _ _ _ _ _ Hℓ2).
  rewrite run_on_requests, run_on_observed. unfold respond.
  rewrite Heff in *. simpl.
  by rewrite Hrole, bool_decide_eq_false_2 by auto.
Qed.

(** X5 (when the call returns). The call returns exactly when the role
    lookup succeeds and the provider returns a dict whose "choices" is a
    non-empty list, whose first element is a dict with a dict under
    "message" and a string under "content" there. The text then comes from
    that first choice alone: further choices and other keys play no part. *)
Theorem returns_exactly_when ℓ h w :
  heap w !! ℓ = Some h →
  let r := get_agent_response MODEL_NAME provider ℓ w in
  (∀ ℓ', r.1 = Return ℓ' →
     ∃ b d c rest m s,
       prompt_missing h = Return b
       ∧ provider MODEL_NAME (effective b h) = Return (PDict d)
       ∧ d !! "choices" = Some (PList (PDict c :: rest))
       ∧ c !! "message" = Some (PDict m)
       ∧ m !! "content" = Some (PStr s)
       ∧ heap r.2 !! ℓ'
         = Some (effective b h ++ [assistant_message (strip s)]))
  ∧ (∀ b d c rest m s,
       prompt_missing h = Return b →
       provider MODEL_NAME (effective b h) = Return (PDict d) →
       d !! "choices" = Some (PList (PDict c :: rest)) →
       c !! "message" = Some (PDict m) →
       m !! "content" = Some (PStr s) →
       ∃ ℓ', r.1 = Return ℓ'
             ∧ heap r.2 !! ℓ'
               = Some (effective b h ++ [assistant_message (strip s)])).
Proof.
  intros Hℓ r. split.
  - intros ℓ' Hret.
    destruct (returned_is_live _ _ _ _ _ _ Hℓ Hret) as (conv & Hresp & Hconv).
    destruct (respond_inv _ _ _ _ Hresp)
      as (b & reply & txt & Hb & Hreply & Htxt & ->).
    apply reply_text_return in Htxt as (s & Hcontent & ->).
    apply reply_content_shape in Hcontent
      as (d & c & rest & m & -> & Hd & Hc & Hm).
    by exists b, d, c, rest, m, s.
  - intros b d c rest m s Hb Hreply Hd Hc Hm.
    apply (returns_respond _ _ _ _ Hℓ).
    unfold respond. rewrite Hb. simpl. rewrite Hreply. simpl.
    assert (Htxt : reply_text (PDict d) = Return (strip s)).
    { apply reply_text_return. exists s. split; [|done].
      apply reply_content_shape. by exists d, c, rest, m. }
    by rewrite Htxt.
Qed.

(** X6 (an answer without text). When the provider's answer has the
    expected shape but its content is not a string, as with [None], the
    request has been sent, the call raises [AttributeError] and nothing is
    returned. *)
Theorem non_text_content_raises ℓ h w b reply v :
  heap w !! ℓ = Some h →
  prompt_missing h = Return b →
  provider MODEL_NAME (effective b h) = Return reply →
  reply_content reply = Return v →
  (∀ s, v ≠ PStr s) →
  let r := get_agent_response MODEL_NAME provider ℓ w in
  r.1 = Raise AttributeError
  ∧ conversation_of r = None
  ∧ requests w r = [(MODEL_NAME, effective b h)].
Proof.
  intros Hℓ Hb Hreply Hv Hnot r.
  assert (Hresp : respond MODEL_NAME provider h = Raise AttributeError).
  { unfold respond. rewrite Hb. simpl. rewrite Hreply. simpl.
    rewrite reply_text_content, Hv. simpl.
    destruct v as [|s| |]; simpl; try done. by destruct (Hnot s). }
  destruct (raised_is_respond _ _ _ _ _ _ Hℓ Hresp) as [Hraise Hconv].
  split_and!; [done..|]. subst r.
  by rewrite (get_agent_response_run _ _ _ _ _ Hℓ), run_on_requests, Hb.
Qed.

(** X7 (an answer of whitespace). The appended message has empty content
    exactly when the provider's text is empty or consists of whitespace
    code points only; the call still returns then. *)
Theorem blank_reply_gives_empty_content ℓ h w b reply t :
  heap w !! ℓ = Some h →
  prompt_missing h = Return b →
  provider MODEL_NAME (effective b h) = Return reply →
  Forall is_code_point t →
  reply_content reply = Return (PStr (utf8_encode t)) →
  let r := get_agent_response MODEL_NAME provider ℓ w in
  Forall (.∈ unicode_whitespace) t
  ↔ conversation_of r = Some (effective b h ++ [assistant_message ""]).
Proof.
  intros Hℓ Hb Hreply Ht Hs r. subst r.
  rewrite (get_agent_response_run _ _ _ _ _ Hℓ), run_on_conversation.
  unfold respond. rewrite Hb. simpl. rewrite Hreply. simpl.
  rewrite reply_text_content, Hs. simpl. rewrite (strip_utf8 _ Ht).
  rewrite <-strip_text_empty, <-utf8_encode_empty. split.
  - by intros ->.
  - apply appended_inj.
Qed.

(** X8 (a reply without surrounding whitespace). The reply text is appended
    as it is exactly when it neither starts nor ends with a whitespace code
    point; in every case the appended text is a text that trimming leaves
    alone, and it has no more code points than the reply. *)
Theorem clean_reply_appended_unchanged ℓ h w b reply t :
  heap w !! ℓ = Some h →
  prompt_missing h = Return b →
  provider MODEL_NAME (effective b h) = Return reply →
  Forall is_code_point t →
  reply_content reply = Return (PStr (utf8_encode t)) →
  let r := get_agent_response MODEL_NAME provider ℓ w in
  ∃ t',
    conversation_of r
    = Some (effective b h ++ [assistant_message (utf8_encode t')])
    ∧ Forall is_code_point t'
    ∧ length t' ≤ length t
    ∧ strip (utf8_encode t') = utf8_encode t'
    ∧ (conversation_of r
       = Some (effective b h ++ [assistant_message (utf8_encode t)])
       ↔ (∀ c u, t = c :: u → c ∉ unicode_whitespace)
         ∧ (∀ c u, t = u ++ [c] → c ∉ unicode_whitespace)).
Proof.
  intros Hℓ Hb Hreply Ht Hs r. subst r. exists (strip_text t).
  rewrite (get_agent_response_run _ _ _ _ _ Hℓ), run_on_conversation.
  unfold respond. rewrite Hb. simpl. rewrite Hreply. simpl.
  rewrite reply_text_content, Hs. simpl. rewrite (strip_utf8 _ Ht).
  pose proof (strip_text_valid _ Ht) as Ht'.
  split_and!; [done | done | apply strip_text_length | |].
  - rewrite (strip_utf8 _ Ht'). f_equal. apply strip_text_fixed.
    by destruct (strip_text_is_trim t) as [_ [? ?]].
  - rewrite <-strip_text_fixed. split.
    + intros Heq%appended_inj. by apply utf8_encode_inj.
    + by intros ->.
Qed.

(** X9 (the model of a request). A request names the model that import read:
    the environment's [MODEL_NAME], else the [.env] file's, else
    "gpt-4o-mini". What the environment holds at the time of the call plays
    no part, and the call leaves the environment as it finds it. *)
Theorem model_fixed_at_import dotenv w ℓ h b
    (change : gmap string string → gmap string string) :
  heap w !! ℓ = Some h →
  prompt_missing h = Return b →
  ∃ model,
    (module_init dotenv w).1 = Return model
    ∧ model = default "gpt-4o-mini" ((environ w ∪ dotenv) !! "MODEL_NAME")
    ∧ let w' := set_environ change (module_init dotenv w).2 in
      let r := get_agent_response model provider ℓ w' in
      requests w' r = [(model, effective b h)]
      ∧ environ r.2 = environ w'.
Proof.
  intros Hℓ Hb. rewrite module_init_run. eexists. split; [done|].
  split; [done|]. cbv zeta. set (w' := set_environ change _).
  assert (Hℓ' : heap w' !! ℓ = Some h) by done.
  rewrite (get_agent_response_run _ _ _ _ _ Hℓ').
  by rewrite run_on_requests, run_on_environ, Hb.
Qed.
End further.

(** ** The further properties at concrete inputs *)

Lemma returned_starts_with_system_witness :
  heap w_user !! 0 = Some [user_message "I have eggs and flour"]
  ∧ (get_agent_response "gpt-4o-mini" echo 0 w_user).1 = Return 4
  ∧ ∃ first rest,
      heap (get_agent_response "gpt-4o-mini" echo 0 w_user).2 !! 4
      = Some (first :: rest)
      ∧ first !! "role" = Some "system"
      ∧ (first = system_message
         ∨ head [user_message "I have eggs and flour"] = Some first).
Proof.
  split; [reflexivity|]. split; [reflexivity|].
  apply (returned_starts_with_system "gpt-4o-mini" echo 0
           [user_message "I have eggs and flour"] w_user 4); reflexivity.
Defined.

Lemma later_turn_sends_unchanged_witness :
  heap w_user !! 0 = Some [user_message "I have eggs and flour"]
  ∧ (get_agent_response "gpt-4o-mini" echo 0 w_user).1 = Return 4
  ∧ requests w_second_turn
      (get_agent_response "gpt-4o-mini" echo 0 w_second_turn)
    = [("gpt-4o-mini",
        [system_message; user_message "I have eggs and flour";
         assistant_message "Hello there"; user_message "thanks"])].
Proof.
  split; [reflexivity|]. split; [reflexivity|].
  destruct (later_turn_sends_unchanged "gpt-4o-mini" echo 0
              [user_message "I have eggs and flour"] w_user 4)
    as (conv & Hconv & Hnext); [reflexivity..|].
  assert (Hvalue :
    Some conv
    = Some [system_message; user_message "I have eggs and flour";
            assistant_message "Hello there"])
    by (rewrite <-Hconv; reflexivity).
  apply (inj Some) in Hvalue. subst conv.
  destruct (Hnext [user_message "thanks"] 0 w_second_turn) as [Hreq _];
    [reflexivity|].
  exact Hreq.
Defined.

Lemma returns_exactly_when_witness :
  heap w_custom !! 0 = Some [custom_system; user_message "hi"]
  ∧ two_choices_reply !! "choices"
    = Some (PList [PDict first_choice; second_choice])
  ∧ first_choice !! "message" = Some (PDict first_message)
  ∧ first_message !! "content" = Some (PStr "first ")
  ∧ ∃ ℓ',
      (get_agent_response "gpt-4o-mini" two_choices 0 w_custom).1 = Return ℓ'
      ∧ heap (get_agent_response "gpt-4o-mini" two_choices 0 w_custom).2 !! ℓ'
        = Some [custom_system; user_message "hi"; assistant_message "first"].
Proof.
  split; [reflexivity|]. split; [reflexivity|]. split; [reflexivity|].
  split; [reflexivity|].
  destruct (returns_exactly_when "gpt-4o-mini" two_choices 0
              [custom_system; user_message "hi"] w_custom)
    as [_ Hreturns]; [reflexivity|].
  apply (Hreturns false two_choices_reply first_choice [second_choice]
           first_message "first "); reflexivity.
Defined.

Lemma non_text_content_raises_witness :
  heap w_empty !! 0 = Some []
  ∧ reply_content (response_with PNone) = Return PNone
  ∧ (get_agent_response "gpt-4o-mini" silent 0 w_empty).1
    = Raise AttributeError
  ∧ conversation_of (get_agent_response "gpt-4o-mini" silent 0 w_empty)
    = None
  ∧ requests w_empty (get_agent_response "gpt-4o-mini" silent 0 w_empty)
    = [("gpt-4o-mini", [system_message])].
Proof.
  split; [reflexivity|]. split; [reflexivity|].
  apply (non_text_content_raises "gpt-4o-mini" silent 0 [] w_empty true
           (response_with PNone) PNone); try reflexivity.
  intros s. discriminate.
Defined.

Lemma blank_reply_gives_empty_content_witness :
  heap w_empty !! 0 = Some []
  ∧ Forall is_code_point blank_text
  ∧ Forall (.∈ unicode_whitespace) blank_text
  ∧ conversation_of (get_agent_response "gpt-4o-mini" blank 0 w_empty)
    = Some [system_message; assistant_message ""].
Proof.
  assert (Hvalid : Forall is_code_point blank_text).
  { unfold blank_text, is_code_point. repeat constructor. }
  assert (Hblank : Forall (.∈ unicode_whitespace) blank_text).
  { unfold blank_text. repeat constructor; apply isspace_whitespace;
      reflexivity. }
  split; [reflexivity|]. split; [exact Hvalid|]. split; [exact Hblank|].
  apply (blank_reply_gives_empty_content "gpt-4o-mini" blank 0 [] w_empty
           true (response_with (PStr (utf8_encode blank_text))) blank_text);
    [reflexivity | reflexivity | reflexivity | exact Hvalid | reflexivity
    | exact Hblank].
Defined.

Lemma clean_reply_appended_unchanged_witness :
  heap w_custom !! 0 = Some [custom_system; user_message "hi"]
  ∧ Forall is_code_point (text "first ")
  ∧ reply_content (PDict two_choices_reply)
    = Return (PStr (utf8_encode (text "first ")))
  ∧ ∃ t',
      conversation_of (get_agent_response "gpt-4o-mini" two_choices 0 w_custom)
      = Some ([custom_system; user_message "hi"]
              ++ [assistant_message (utf8_encode t')])
      ∧ Forall is_code_point t'
      ∧ length t' ≤ length (text "first ")
      ∧ strip (utf8_encode t') = utf8_encode t'.
Proof.
  assert (Hvalid : Forall is_code_point (text "first ")).
  { unfold is_code_point. repeat constructor. }
  split; [reflexivity|]. split; [exact Hvalid|]. split; [reflexivity|].
  destruct (clean_reply_appended_unchanged "gpt-4o-mini" two_choices 0
              [custom_system; user_message "hi"] w_custom false
              (PDict two_choices_reply) (text "first "))
    as (t' & Hconv & Ht' & Hlen & Hfix & _);
    [reflexivity | reflexivity | reflexivity | exact Hvalid | reflexivity |].
  exists t'. repeat split; assumption.
Defined.

Lemma model_fixed_at_import_witness :
  heap w_configured_user !! 0 = Some [user_message "I have eggs and flour"]
  ∧ environ (set_environ (delete "MODEL_NAME")
               (module_init dotenv_file w_configured_user).2)
      !! "MODEL_NAME" = None
  ∧ requests
      (set_environ (delete "MODEL_NAME")
         (module_init dotenv_file w_configured_user).2)
      (get_agent_response "gpt-4o" echo 0
         (set_environ (delete "MODEL_NAME")
            (module_init dotenv_file w_configured_user).2))
    = [("gpt-4o", [system_message; user_message "I have eggs and flour"])].
Proof.
  split; [reflexivity|]. split; [reflexivity|].
  destruct (model_fixed_at_import echo dotenv_file w_configured_user 0
              [user_message "I have eggs and flour"] true
              (delete "MODEL_NAME"))
    as (model & _ & -> & Hreq & _); [reflexivity..|].
  exact Hreq.
Defined.
